(** * Verification of the workflow-inference-compiler catalog builders
      and of the JSON-schema null-type remover

    Sources embedded here:
    - [preprocessjson.py]: [remove_null_types];
    - [src/wic/plugins.py]: [validate_cwl], [get_tools_cwl],
      [get_yml_paths].

    Python values are modelled as they are at run time: [None] is an
    ordinary value ([JNull]), a [dict] is an insertion-ordered association
    list with at most one entry per key, a [str] is a Rocq [string] (one
    character per code point; paths are taken to be ASCII), a call that
    raises gives a [Raise] result, and [print] appends to an explicit
    standard-output log. *)

From stdpp Require Import base option list sorting strings gmap.
From Stdlib Require Import ZArith Ascii Floats.SpecFloat.

#[local] Set Warnings "-register-all".
#[local] Open Scope string_scope.
#[local] Open Scope list_scope.

(* ===================================================================== *)
(** * Part I: definitions                                                 *)
(* ===================================================================== *)

(** ** Python built-ins used by the two source files *)

Module Py.

(** A Python [dict]: keys in insertion order, one entry per key. The
    operations below are the ones the sources use. *)
Section Dict.
Context {K V : Type} `{EqDecision K}.

(** [d.get(k)], also the test [k in d] (through [is_Some]). *)
Fixpoint dict_get (k : K) (d : list (K * V)) : option V :=
  match d with
  | [] => None
  | (k', v) :: rest => if decide (k' = k) then Some v else dict_get k rest
  end.

(** [d[k] = v]: an existing key keeps its position and gets the new
    value, a new key is appended. *)
Fixpoint dict_set (k : K) (v : V) (d : list (K * V)) : list (K * V) :=
  match d with
  | [] => [(k, v)]
  | (k', v') :: rest =>
      if decide (k' = k) then (k', v) :: rest
      else (k', v') :: dict_set k v rest
  end.

(** [{**a, **b}]: a new dict holding the entries of [a], then those of
    [b] assigned in order. *)
Definition dict_merge (a b : list (K * V)) : list (K * V) :=
  fold_left (λ acc kv, dict_set kv.1 kv.2 acc) b a.

(** The well-formedness of a dict: no key occurs twice. *)
Definition dict_wf (d : list (K * V)) : Prop := NoDup (d.*1).
End Dict.

(** [needle in hay] on strings. *)
Fixpoint str_contains (needle hay : string) : bool :=
  String.prefix needle hay ||
  match hay with
  | EmptyString => false
  | String _ rest => str_contains needle rest
  end.

(** [sorted(paths, key=len, reverse=True)]. Python's sort is stable, also
    under [reverse=True]: elements whose keys are equal keep their
    original relative order. The output of a stable sort is determined by
    its input, so insertion sort gives the very list Python returns. *)
Fixpoint insert_len_desc (x : string) (l : list string) : list string :=
  match l with
  | [] => [x]
  | y :: rest =>
      if (String.length y <=? String.length x)%nat then x :: l
      else y :: insert_len_desc x rest
  end.

Definition sorted_len_reverse (paths : list string) : list string :=
  foldr insert_len_desc [] paths.

(** Exceptions and results of calls that may raise. *)
Inductive exn : Type :=
| Exception (kind : string) (message : string).

Inductive result (A : Type) : Type :=
| Ok (a : A)
| Raise (e : exn).
Arguments Ok {A} a.
Arguments Raise {A} e.

(** The newline character of the f-string in the warnings. *)
Definition nl : string := String (Ascii.ascii_of_nat 10) EmptyString.

End Py.

(** ** preprocessjson.py *)

Module Preprocessjson.
Import Py.

(** What [json.load] returns: [None], [bool], [int], [float], [str],
    [list] and [dict] with [str] keys. *)
Inductive json : Type :=
| JNull
| JBool (b : bool)
| JInt (z : Z)
| JFloat (f : spec_float)
| JStr (s : string)
| JList (items : list json)
| JDict (entries : list (string * json)).

(** [v == ["null"]]: a list of exactly one element, the [str] "null". *)
Definition eq_null_list (v : json) : bool :=
  match v with
  | JList [JStr s] => bool_decide (s = "null")
  | _ => false
  end.

(** ["type" in schema and schema["type"] == ["null"]] *)
Definition has_null_type (schema : list (string * json)) : bool :=
  match dict_get "type" schema with
  | Some v => eq_null_list v
  | None => false
  end.

(** [x is None] *)
Definition is_None (v : json) : bool :=
  match v with JNull => true | _ => false end.

(** [remove_null_types], lines 15-28. The dict comprehension maps over the
    items in order; the list comprehension calls the function on an item
    for its condition and, when the result is not [None], once more for
    the element it stores. *)
Fixpoint remove_null_types (schema : json) : json :=
  match schema with
  | JDict d =>
      if has_null_type d then JNull
      else JDict (map (λ kv, (kv.1, remove_null_types kv.2)) d)
  | JList l =>
      JList ((fix comprehension (items : list json) : list json :=
                match items with
                | [] => []
                | item :: rest =>
                    if negb (is_None (remove_null_types item))
                    then remove_null_types item :: comprehension rest
                    else comprehension rest
                end) l)
  | _ => schema
  end.

(** Does the tree hold, at any depth, a mapping whose "type" is
    [["null"]]? *)
Fixpoint holds_null_type (t : json) : bool :=
  match t with
  | JDict d =>
      has_null_type d ||
      (fix any (entries : list (string * json)) : bool :=
         match entries with
         | [] => false
         | kv :: rest => holds_null_type kv.2 || any rest
         end) d
  | JList l =>
      (fix any (items : list json) : bool :=
         match items with
         | [] => false
         | item :: rest => holds_null_type item || any rest
         end) l
  | _ => false
  end.

(** Scalars are the values that are neither a list nor a dict. *)
Definition is_scalar (t : json) : bool :=
  match t with JList _ | JDict _ => false | _ => true end.

(** The first example of the specification. *)
Definition any_of_schema : json :=
  JDict [("anyOf", JList [JDict [("type", JList [JStr "null"])];
                          JDict [("type", JStr "string")]])].

(** Is every element of every list in the tree different from [None]? *)
Fixpoint no_None_items (t : json) : bool :=
  match t with
  | JDict d =>
      (fix all (entries : list (string * json)) : bool :=
         match entries with
         | [] => true
         | kv :: rest => no_None_items kv.2 && all rest
         end) d
  | JList l =>
      (fix all (items : list json) : bool :=
         match items with
         | [] => true
         | item :: rest =>
             negb (is_None item) && no_None_items item && all rest
         end) l
  | _ => true
  end.

(** The depth of a tree: the recursion budget a traversal needs. *)
Fixpoint depth (t : json) : nat :=
  match t with
  | JDict d =>
      S ((fix deepest (entries : list (string * json)) : nat :=
            match entries with
            | [] => 0
            | kv :: rest => depth kv.2 `max` deepest rest
            end) d)
  | JList l =>
      S ((fix deepest (items : list json) : nat :=
            match items with
            | [] => 0
            | item :: rest => depth item `max` deepest rest
            end) l)
  | _ => 1
  end.

(** *** The same function over a store of mutable objects

    Lists and dicts are objects in a store, reached through references;
    two references to one location are aliases. Scalars and [None] are
    immutable values. This is the model in which "the argument is not
    mutated" and "the result is a new container" can be said. *)

Definition loc : Type := positive.

Inductive pyval : Type :=
| VNone
| VBool (b : bool)
| VInt (z : Z)
| VFloat (f : spec_float)
| VStr (s : string)
| VRef (l : loc).

Inductive pyobj : Type :=
| OList (items : list pyval)
| ODict (entries : list (string * pyval)).

Abbreviation heap := (gmap loc pyobj).

(** A computation on the store; [None] when the recursion budget is used
    up (Python's RecursionError on a cyclic structure) or a reference
    dangles. *)
Definition HM (A : Type) : Type := heap → option (A * heap).

Definition hret {A} (a : A) : HM A := λ h, Some (a, h).

Definition hbind {A B} (m : HM A) (k : A → HM B) : HM B :=
  λ h, match m h with
       | Some (a, h') => k a h'
       | None => None
       end.

(** A list display or comprehension result becomes a new object. *)
Definition alloc (o : pyobj) : HM pyval :=
  λ h, let l := fresh (dom h) in Some (VRef l, <[l := o]> h).

Definition is_VNone (v : pyval) : bool :=
  match v with VNone => true | _ => false end.

(** [v == ["null"]] read through the store. *)
Definition eq_null_list_h (h : heap) (v : pyval) : bool :=
  match v with
  | VRef l =>
      match h !! l with
      | Some (OList [VStr s]) => bool_decide (s = "null")
      | _ => false
      end
  | _ => false
  end.

Definition has_null_type_h (h : heap) (d : list (string * pyval)) : bool :=
  match dict_get "type" d with
  | Some v => eq_null_list_h h v
  | None => false
  end.

(** [{k: f(v) for k, v in schema.items()}] *)
Fixpoint dict_comprehension (f : pyval → HM pyval)
    (entries : list (string * pyval)) : HM (list (string * pyval)) :=
  match entries with
  | [] => hret []
  | (k, v) :: rest =>
      hbind (f v) (λ v',
      hbind (dict_comprehension f rest) (λ rest',
      hret ((k, v') :: rest')))
  end.

(** [[f(item) for item in schema if f(item) is not None]] *)
Fixpoint list_comprehension (f : pyval → HM pyval)
    (items : list pyval) : HM (list pyval) :=
  match items with
  | [] => hret []
  | item :: rest =>
      hbind (f item) (λ c,
      if negb (is_VNone c)
      then hbind (f item) (λ r,
           hbind (list_comprehension f rest) (λ rest',
           hret (r :: rest')))
      else list_comprehension f rest)
  end.

Fixpoint remove_null_types_h (fuel : nat) (schema : pyval) : HM pyval :=
  match fuel with
  | O => λ _, None
  | S fuel =>
      match schema with
      | VRef l => λ h,
          match h !! l with
          | Some (ODict d) =>
              if has_null_type_h h d then hret VNone h
              else hbind (dict_comprehension (remove_null_types_h fuel) d)
                         (λ d', alloc (ODict d')) h
          | Some (OList items) =>
              hbind (list_comprehension (remove_null_types_h fuel) items)
                    (λ items', alloc (OList items')) h
          | None => None
          end
      | _ => hret schema
      end
  end.

(** [repr h v t]: in store [h] the value [v] is the tree [t]. *)
Inductive repr (h : heap) : pyval → json → Prop :=
| repr_none : repr h VNone JNull
| repr_bool b : repr h (VBool b) (JBool b)
| repr_int z : repr h (VInt z) (JInt z)
| repr_float f : repr h (VFloat f) (JFloat f)
| repr_str s : repr h (VStr s) (JStr s)
| repr_list l vs ts :
    h !! l = Some (OList vs) →
    Forall2 (repr h) vs ts →
    repr h (VRef l) (JList ts)
| repr_dict l es ts :
    h !! l = Some (ODict es) →
    Forall2 (λ e t, e.1 = t.1 ∧ repr h e.2 t.2) es ts →
    repr h (VRef l) (JDict ts).

(** The number of nodes of a tree. *)
Fixpoint size (t : json) : nat :=
  match t with
  | JDict d =>
      S ((fix total (entries : list (string * json)) : nat :=
            match entries with
            | [] => 0
            | kv :: rest => size kv.2 + total rest
            end) d)
  | JList l =>
      S ((fix total (items : list json) : nat :=
            match items with
            | [] => 0
            | item :: rest => size item + total rest
            end) l)
  | _ => 1
  end.

(** [reaches h v l]: in store [h], the container at location [l] is [v]
    itself or is held, at any depth, by the container [v]. *)
Inductive reaches (h : heap) : pyval → loc → Prop :=
| reaches_here l : reaches h (VRef l) l
| reaches_item l0 vs v l :
    h !! l0 = Some (OList vs) → v ∈ vs → reaches h v l →
    reaches h (VRef l0) l
| reaches_value l0 es e l :
    h !! l0 = Some (ODict es) → e ∈ es → reaches h e.2 l →
    reaches h (VRef l0) l.

End Preprocessjson.

(** ** src/wic/plugins.py *)

Module Plugins.
Import Py Preprocessjson.

(** Modelled from the spec: the types [StepId], [Tool], [Tools] and [Cwl]
    of [wic_types], which [plugins.py] imports. A StepId is the pair
    (name, namespace) with structural equality; a Tool is the pair
    (absolute path, definition document); the tool catalog is a dict from
    StepId to Tool; a Cwl document is a loaded YAML value (the type [Cwl]
    below). *)
Record StepId : Type := mkStepId { name : string; namespace : string }.

#[global] Instance StepId_eq_dec : EqDecision StepId.
Proof. solve_decision. Defined.

(** What [yaml.safe_load] returns for a file: a JSON-like value ([None],
    [bool], [int], [float], [str], [list] or [dict]), a [set] (the YAML
    tag [!!set]), or an object of another type ([bytes], [date],
    [datetime]), of which only the type name matters here. The elements of
    a set are listed in the order in which they were added. The mappings
    are those with [str] keys and JSON-like values: [update] below assigns
    one [str] key and looks at no value, so that other keys and values
    would make no difference to it. *)
Inductive Cwl : Type :=
| Loaded (v : json)
| LoadedSet (elements : list json)
| LoadedOther (type_name : string).

Record Tool : Type := mkTool { absolute_path : string; definition : Cwl }.

Definition Tools : Type := list (StepId * Tool).

(** The collaborators of [plugins.py]: the [utils] module of the
    repository (configuration copy and registry reader), [pathlib],
    [os.path], [glob], file reading with [yaml.safe_load], and
    [cwltool.load_tool]. Each is a function of its arguments: the file
    system is taken not to change under the build in a way that alters
    their answers. *)
Record World : Type := mkWorld {
  (* utils.copy_config_files(homedir) *)
  copy_config_files : string → result unit;
  (* utils.read_lines_pairs(file): the (namespace, directory) lines *)
  read_lines_pairs : string → result (list (string * string));
  (* str(Path(a) / b) *)
  path_join : string → string → string;
  (* Path(p).absolute() *)
  path_absolute : string → string;
  (* Path(p).stem *)
  path_stem : string → string;
  (* os.path.abspath(p) *)
  abspath : string → string;
  (* Path(p).mkdir(parents=True, exist_ok=True) *)
  mkdir_parents_exist_ok : string → result unit;
  (* glob.glob(pattern, recursive=True), in the order glob yields *)
  glob_recursive : string → list string;
  (* yaml.safe_load(open(p).read()) *)
  load_yaml_file : string → result Cwl;
  (* cwltool.load_tool *)
  LoadingContext : Type;
  WorkflowObj : Type;
  Process : Type;
  fetch_document : string → result (LoadingContext * WorkflowObj * string);
  (* the last argument is preprocess_only *)
  resolve_and_validate_document :
    LoadingContext → WorkflowObj → string → bool →
    result (LoadingContext * string);
  make_tool : string → LoadingContext → result Process;
}.

(** Computations that print and may raise: standard output is threaded
    through, and what was printed before an exception stays printed. *)
Definition M (A : Type) : Type := list string → result A * list string.

Definition ret {A} (a : A) : M A := λ out, (Ok a, out).

Definition bind {A B} (m : M A) (k : A → M B) : M B :=
  λ out, match m out with
         | (Ok a, out') => k a out'
         | (Raise e, out') => (Raise e, out')
         end.

Definition lift {A} (r : result A) : M A := λ out, (r, out).

Definition print (line : string) : M unit := λ out, (Ok tt, out ++ [line]).

Notation "'let*' x ':=' c1 'in' c2" := (bind c1 (λ x, c2))
  (at level 10, x name, c1 at level 100, c2 at level 200).
Notation "'let*' ' p ':=' c1 'in' c2" :=
  (bind c1 (λ x, match x with p => c2 end))
  (at level 10, p pattern, c1 at level 100, c2 at level 200).
Notation "c1 ;; c2" := (bind c1 (λ _, c2))
  (at level 100, c2 at level 200, right associativity).

(** A [for] loop whose body updates the loop state. *)
Fixpoint for_each {A S} (body : S → A → M S) (l : list A) (s : S) : M S :=
  match l with
  | [] => ret s
  | x :: rest => let* s' := body s x in for_each body rest s'
  end.

(** [s.add(k)] for a [str] [k]: nothing changes when the set holds [k]
    already, which only an element that is the same [str] can make true. *)
Definition set_add (k : string) (elements : list json) : list json :=
  if existsb (λ e, match e with JStr s => String.eqb s k | _ => false end)
       elements
  then elements
  else elements ++ [JStr k].

(** [tool.update({k: v})]: a dict assigns [v] to the key [k]; a set takes
    the argument as an iterable and so adds its key [k] as an element; no
    other value that [yaml.safe_load] returns has the method. *)
Definition update (tool : Cwl) (k : string) (v : json) : result Cwl :=
  match tool with
  | Loaded (JDict d) => Ok (Loaded (JDict (dict_set k v d)))
  | LoadedSet elements => Ok (LoadedSet (set_add k elements))
  | _ => Raise (Exception "AttributeError" "object has no attribute 'update'")
  end.

Section WithWorld.
Context (W : World).

(** [validate_cwl], lines 39-61. The parameter [skip_schemas] occurs in
    the signature only: lines 52 and 54 that used it are comments. *)
Definition validate_cwl (cwl_path_str : string) (skip_schemas : bool)
    : M unit :=
  let* '(loading_context, workflowobj, uri) :=
    lift (fetch_document W cwl_path_str) in
  let* '(loading_context, uri) :=
    lift (resolve_and_validate_document W loading_context workflowobj
            uri false) in
  let* process_ := lift (make_tool W uri loading_context) in
  ret tt.

(** The body of the loop over [cwl_paths], lines 93-109. *)
Definition get_tools_cwl_file (validate_plugins skip_schemas : bool)
    (plugin_ns : string) (tools_cwl : Tools) (cwl_path_str : string)
    : M Tools :=
  if str_contains "biobb_md" cwl_path_str then ret tools_cwl
  else
    let* tool := lift (load_yaml_file W cwl_path_str) in
    let stem := path_stem W cwl_path_str in
    (if validate_plugins then validate_cwl cwl_path_str skip_schemas
     else ret tt) ;;
    let* tool := lift (update tool "stdout" (JStr (stem +:+ ".out"))) in
    let* tool := lift (update tool "stderr" (JStr (stem +:+ ".err"))) in
    let cwl_path_abs := abspath W cwl_path_str in
    ret (dict_set (mkStepId stem plugin_ns) (mkTool cwl_path_abs tool)
           tools_cwl).

Definition warning_no_files (ext dir dirs_file : string) : string :=
  "Warning! No " +:+ ext +:+ " files found in " +:+ dir +:+ "." +:+ nl ++
  "Check " +:+ path_absolute W dirs_file.

Definition warning_wrong_directory : string :=
  "This almost certainly means you are not in the correct directory.".

(** The body of the loop over [cwl_dirs], lines 81-111. *)
Definition get_tools_cwl_dir (validate_plugins skip_schemas : bool)
    (cwl_dirs_file : string) (tools_cwl : Tools)
    (pair : string * string) : M Tools :=
  let '(plugin_ns, cwl_dir) := pair in
  let pattern_cwl := path_join W cwl_dir "**/*.cwl" in
  let cwl_paths := glob_recursive W pattern_cwl in
  lift (mkdir_parents_exist_ok W "autogenerated/schemas/tools/") ;;
  (if (length cwl_paths =? 0)%nat
   then print (warning_no_files "cwl" cwl_dir cwl_dirs_file) ;;
        print warning_wrong_directory
   else ret tt) ;;
  for_each (get_tools_cwl_file validate_plugins skip_schemas plugin_ns)
    cwl_paths tools_cwl.

(** [get_tools_cwl], lines 64-112. *)
Definition get_tools_cwl (homedir : string)
    (validate_plugins skip_schemas : bool) : M Tools :=
  lift (copy_config_files W homedir) ;;
  let tools_cwl : Tools := [] in
  let cwl_dirs_file :=
    path_join W (path_join W homedir "wic") "cwl_dirs.txt" in
  let* cwl_dirs := lift (read_lines_pairs W cwl_dirs_file) in
  for_each (get_tools_cwl_dir validate_plugins skip_schemas cwl_dirs_file)
    cwl_dirs tools_cwl.

(** The loop over [yml_paths_sorted], lines 144-150. *)
Definition yml_paths_of (yml_paths_sorted : list string)
    : list (string * string) :=
  fold_left
    (λ yml_paths yml_path_str,
       if negb (str_contains "_inputs" yml_path_str)
       then dict_set (path_stem W yml_path_str) (abspath W yml_path_str)
              yml_paths
       else yml_paths)
    yml_paths_sorted [].

(** The body of the loop over [yml_dirs], lines 134-154. *)
Definition get_yml_paths_dir (yml_dirs_file : string)
    (yml_paths_all : list (string * list (string * string)))
    (pair : string * string)
    : M (list (string * list (string * string))) :=
  let '(yml_namespace, yml_dir) := pair in
  let pattern_yml := path_join W yml_dir "**/*.yml" in
  let yml_paths_sorted :=
    sorted_len_reverse (glob_recursive W pattern_yml) in
  lift (mkdir_parents_exist_ok W "autogenerated/schemas/workflows/") ;;
  (if (length yml_paths_sorted =? 0)%nat
   then print (warning_no_files "yml" yml_dir yml_dirs_file) ;;
        print warning_wrong_directory
   else ret tt) ;;
  let yml_paths := yml_paths_of yml_paths_sorted in
  let ns_dict := default [] (dict_get yml_namespace yml_paths_all) in
  ret (dict_set yml_namespace (dict_merge ns_dict yml_paths)
         yml_paths_all).

(** The [yml_paths] dict that one registry line builds for its directory
    (lines 138-150 with the directory as the only input). *)
Definition yml_paths_dir (yml_dir : string) : list (string * string) :=
  yml_paths_of
    (sorted_len_reverse (glob_recursive W (path_join W yml_dir "**/*.yml"))).

(** [yml_paths_all[ns][stem]], when both keys are present. *)
Definition catalog_get (ns stem : string)
    (yml_paths_all : list (string * list (string * string)))
    : option string :=
  match dict_get ns yml_paths_all with
  | Some ns_dict => dict_get stem ns_dict
  | None => None
  end.

(** The files of the tool build in the order the two loops reach them,
    each with the namespace of its registry line; the files of the
    deprecated package are left out, as line 94 skips them. *)
Definition processing_order (cwl_dirs : list (string * string))
    : list (string * string) :=
  List.filter (λ item, negb (str_contains "biobb_md" item.2))
    (flat_map
       (λ pair, map (λ cwl_path_str, (pair.1, cwl_path_str))
                  (glob_recursive W (path_join W pair.2 "**/*.cwl")))
       cwl_dirs).

(** The key of line 109 for a file of the processing order. *)
Definition step_id_of (item : string * string) : StepId :=
  mkStepId (path_stem W item.2) item.1.

(** The two registry files. *)
Definition cwl_dirs_file_of (homedir : string) : string :=
  path_join W (path_join W homedir "wic") "cwl_dirs.txt".

Definition yml_dirs_file_of (homedir : string) : string :=
  path_join W (path_join W homedir "wic") "yml_dirs.txt".

(** The key and value that lines 97-109 store for a file, when loading
    and both calls of [tool.update] raise nothing. *)
Definition tool_entry (item : string * string) : option (StepId * Tool) :=
  match load_yaml_file W item.2 with
  | Ok tool =>
      let stem := path_stem W item.2 in
      match update tool "stdout" (JStr (stem +:+ ".out")) with
      | Ok tool1 =>
          match update tool1 "stderr" (JStr (stem +:+ ".err")) with
          | Ok tool2 =>
              Some (mkStepId stem item.1, mkTool (abspath W item.2) tool2)
          | Raise _ => None
          end
      | Raise _ => None
      end
  | Raise _ => None
  end.

(** [get_yml_paths], lines 115-156. *)
Definition get_yml_paths (homedir : string)
    : M (list (string * list (string * string))) :=
  lift (copy_config_files W homedir) ;;
  let yml_dirs_file :=
    path_join W (path_join W homedir "wic") "yml_dirs.txt" in
  let* yml_dirs := lift (read_lines_pairs W yml_dirs_file) in
  for_each (get_yml_paths_dir yml_dirs_file) yml_dirs [].

End WithWorld.

(** *** The two logging filters, lines 18-32

    A filter gets a log record and answers whether the record is kept; both
    look at [record.getMessage()] only, which is the argument here. *)

(** [s.endswith(suffix)] *)
Fixpoint endswith (s suffix : string) : bool :=
  String.eqb s suffix ||
  match s with
  | EmptyString => false
  | String _ rest => endswith rest suffix
  end.

(** [NoPreviouslyDefinedFilter.filter], line 21. *)
Definition NoPreviouslyDefinedFilter_filter (message : string) : bool :=
  negb (endswith message "previously defined").

(** Regular expressions of the [re] module, as far as the pattern of line
    31 needs them: literal characters, [.] and a postfix [*]. [Fail] and
    [Alt] only arise while matching. *)
Inductive regex : Type :=
| Fail
| Eps
| Lit (c : ascii)
| Dot
| Cat (r1 r2 : regex)
| Alt (r1 r2 : regex)
| Star (r : regex).

Definition newline : ascii := "010"%char.

(** [re.compile(pattern)] on that fragment. *)
Fixpoint compile (pattern : string) : regex :=
  match pattern with
  | EmptyString => Eps
  | String c rest =>
      let atom := if Ascii.eqb c "."%char then Dot else Lit c in
      match rest with
      | String "*"%char rest' => Cat (Star atom) (compile rest')
      | _ => Cat atom (compile rest)
      end
  end.

(** Does the expression match the empty string? *)
Fixpoint nullable (r : regex) : bool :=
  match r with
  | Fail | Lit _ | Dot => false
  | Eps | Star _ => true
  | Cat r1 r2 => nullable r1 && nullable r2
  | Alt r1 r2 => nullable r1 || nullable r2
  end.

(** What is left of the expression after the character [c]; [.] takes any
    character but a newline. *)
Fixpoint deriv (c : ascii) (r : regex) : regex :=
  match r with
  | Fail | Eps => Fail
  | Lit c' => if Ascii.eqb c c' then Eps else Fail
  | Dot => if Ascii.eqb c newline then Fail else Eps
  | Cat r1 r2 =>
      if nullable r1 then Alt (Cat (deriv c r1) r2) (deriv c r2)
      else Cat (deriv c r1) r2
  | Alt r1 r2 => Alt (deriv c r1) (deriv c r2)
  | Star r1 => Cat (deriv c r1) (Star r1)
  end.

(** [bool(re.match(r, s))]: does some prefix of [s] match? *)
Fixpoint re_match (r : regex) (s : string) : bool :=
  nullable r ||
  match s with
  | EmptyString => false
  | String c rest => re_match (deriv c r) rest
  end.

(** [NoResolvedFilter.filter], lines 31-32. *)
Definition NoResolvedFilter_filter (message : string) : bool :=
  let m := re_match (compile "Resolved '.*' to '.*'") message in
  negb m.

(** The strings that an expression matches as a whole. *)
Inductive matches : regex → string → Prop :=
| matches_eps : matches Eps ""
| matches_lit c : matches (Lit c) (String c "")
| matches_dot c : c ≠ newline → matches Dot (String c "")
| matches_cat r1 r2 s1 s2 :
    matches r1 s1 → matches r2 s2 → matches (Cat r1 r2) (s1 +:+ s2)
| matches_alt_l r1 r2 s : matches r1 s → matches (Alt r1 r2) s
| matches_alt_r r1 r2 s : matches r2 s → matches (Alt r1 r2) s
| matches_star_nil r : matches (Star r) ""
| matches_star_cons r s1 s2 :
    matches r s1 → matches (Star r) s2 → matches (Star r) (s1 +:+ s2).

(** The literal string [s], then [r]. *)
Fixpoint lits (s : string) (r : regex) : regex :=
  match s with
  | EmptyString => r
  | String c rest => Cat (Lit c) (lits rest r)
  end.

(** ["\n" not in s] *)
Fixpoint no_newline (s : string) : bool :=
  match s with
  | EmptyString => true
  | String c rest => negb (Ascii.eqb c newline) && no_newline rest
  end.

End Plugins.

(** ** A concrete world: an in-memory file tree

    Used to run the builders on explicit inputs. Paths are POSIX paths
    relative to the working directory [/work]; a glob pattern has the shape
    [<dir>/**/*.<ext>] with a three-letter extension, as both builders
    produce it; files are listed in the order the glob yields them. *)

Module Fixture.
Import Py Preprocessjson Plugins.

Fixpoint rfind (c : Ascii.ascii) (s : string) : option nat :=
  match s with
  | EmptyString => None
  | String a rest =>
      match rfind c rest with
      | Some i => Some (S i)
      | None => if Ascii.eqb a c then Some 0 else None
      end
  end.

Definition posix_name (p : string) : string :=
  match rfind "/"%char p with
  | Some i => String.substring (S i) (String.length p - S i) p
  | None => p
  end.

(** [PurePosixPath(p).stem]: the final component up to its last dot,
    when that dot is neither its first nor its last character. *)
Definition posix_stem (p : string) : string :=
  let n := posix_name p in
  match rfind "."%char n with
  | Some i =>
      if (0 <? i)%nat && (i <? String.length n - 1)%nat
      then String.substring 0 i n else n
  | None => n
  end.

Definition has_suffix (suffix s : string) : bool :=
  (String.length suffix <=? String.length s)%nat &&
  String.eqb suffix
    (String.substring (String.length s - String.length suffix)
       (String.length suffix) s).

Definition glob_match (pattern path : string) : bool :=
  let n := String.length pattern in
  let dir := String.substring 0 (n - 9) pattern in
  let ext := String.substring (n - 4) 4 pattern in
  String.prefix (dir +:+ "/") path && has_suffix ext path.

Definition posix_abspath (p : string) : string :=
  if String.prefix "/" p then p else "/work/" +:+ p.

Definition read_file (files : list (string * Cwl)) (p : string)
    : result Cwl :=
  match dict_get p files with
  | Some doc => Ok doc
  | None => Raise (Exception "FileNotFoundError" p)
  end.

(** The world of a file tree [files] of loaded documents, a registry
    [pairs] and a behaviour [mkdir] of the directory creation; every
    document validates. *)
Definition world_of (files : list (string * Cwl))
    (pairs : list (string * string)) (mkdir : string → result unit)
    : World :=
  {| copy_config_files := λ _, Ok tt;
     read_lines_pairs := λ _, Ok pairs;
     path_join := λ a b, a +:+ "/" +:+ b;
     path_absolute := posix_abspath;
     path_stem := posix_stem;
     abspath := posix_abspath;
     mkdir_parents_exist_ok := mkdir;
     glob_recursive := λ pattern,
       List.filter (glob_match pattern) (files.*1);
     load_yaml_file := read_file files;
     LoadingContext := unit;
     WorkflowObj := Cwl;
     Process := unit;
     fetch_document := λ p,
       match read_file files p with
       | Ok doc => Ok (tt, doc, "file://" +:+ posix_abspath p)
       | Raise e => Raise e
       end;
     resolve_and_validate_document := λ ctx _ uri _, Ok (ctx, uri);
     make_tool := λ _ _, Ok tt |}.

(** The world of a file tree [files] of JSON-like documents and a registry
    [pairs], in which every directory can be created. *)
Definition world (files : list (string * json))
    (pairs : list (string * string)) : World :=
  world_of (map (λ f, (f.1, Loaded f.2)) files) pairs (λ _, Ok tt).

(** Two registry lines of one namespace; the first directory holds the
    shorter path of stem [foo]. *)
Definition two_lines_files : list (string * json) :=
  [("a/foo.yml", JDict []); ("longer/foo.yml", JDict [])].

Definition two_lines : World :=
  world two_lines_files [("ns", "a"); ("ns", "longer")].

(** One registry line whose directory holds three files of stem [foo]. *)
Definition three_files : World :=
  world [("d/x/y/foo.yml", JDict []); ("d/foo.yml", JDict []);
         ("d/x/foo.yml", JDict []); ("d/foo_inputs.yml", JDict [])]
        [("ns", "d")].

(** Tool directories: a document with its own stdout, a file of the
    deprecated package, a directory without files, and two files of one
    stem in one namespace. *)
Definition tools_files : list (string * json) :=
  [("t/align.cwl", JDict [("class", JStr "CommandLineTool");
                          ("stdout", JStr "old.log")]);
   ("t/biobb_md/mdrun.cwl", JDict []);
   ("u/sort.cwl", JDict [("stderr", JStr "e.txt")]);
   ("u/deep/sort.cwl", JDict [("baseCommand", JStr "sort2")])].

(** What the tool build returns and prints on them. *)
Definition align_tool : Tool :=
  mkTool "/work/t/align.cwl"
    (Loaded (JDict [("class", JStr "CommandLineTool");
                    ("stdout", JStr "align.out");
                    ("stderr", JStr "align.err")])).

Definition sort_tool : Tool :=
  mkTool "/work/u/deep/sort.cwl"
    (Loaded (JDict [("baseCommand", JStr "sort2");
                    ("stdout", JStr "sort.out");
                    ("stderr", JStr "sort.err")])).

Definition tools_catalog : Tools :=
  [(mkStepId "align" "ns", align_tool); (mkStepId "sort" "other", sort_tool)].

Definition tools_world : World :=
  world tools_files [("ns", "t"); ("ns", "empty"); ("other", "u")].

(** A store holding the second example of the specification,
    [[{"type": ["null"]}, 5]], at location 1. *)
Definition example_tree : json :=
  JList [JDict [("type", JList [JStr "null"])]; JInt 5].

Definition example_store : heap :=
  <[1%positive := OList [VRef 2%positive; VInt 5]]>
    (<[2%positive := ODict [("type", VRef 3%positive)]]>
       (<[3%positive := OList [VStr "null"]]> ∅)).

Definition repr_example : Prop :=
  repr example_store (VRef 1%positive) example_tree.

Definition tools_stdout : list string :=
  [warning_no_files tools_world "cwl" "empty"
     (cwl_dirs_file_of tools_world "/home/u");
   warning_wrong_directory].

(** A namespace split over two registry lines, and a line without files. *)
Definition split_namespace : World :=
  world [("a/foo.yml", JDict []); ("b/bar.yml", JDict [])]
        [("ns", "a"); ("ns", "b"); ("ns", "empty")].


(** A registry whose first line finds no file, in a working directory
    where the path of the directory for generated schemas is taken by a
    file, so that [mkdir] raises also with [exist_ok=True]. *)
Definition no_mkdir : World :=
  world_of [("u/sort.cwl", Loaded (JDict [])); ("u/flow.yml", Loaded (JDict []))]
    [("ns", "empty"); ("other", "u")]
    (λ p, Raise (Exception "FileExistsError" p)).

End Fixture.


(* ===================================================================== *)
(** * Part II: lemmas and theorems                                        *)
(* ===================================================================== *)

(** ** Dicts and sorting *)

Module PyFacts.
Import Py.

Section DictFacts.
Context {K V : Type} `{EqDecision K}.
Implicit Types (d kvs : list (K * V)) (k : K) (v : V).

Lemma dict_get_set k k' v d :
  dict_get k' (dict_set k v d) =
  if decide (k = k') then Some v else dict_get k' d.
Proof.
  induction d as [ | [k0 v0] d IH]; simpl.
  - by destruct (decide (k = k')).
  - destruct (decide (k0 = k)) as [-> | Hne]; simpl.
    + by destruct (decide (k = k')).
    + destruct (decide (k0 = k')) as [-> | Hne'].
      * by destruct (decide (k = k')); [congruence | ].
      * exact IH.
Qed.

Lemma dict_get_set_eq k v d : dict_get k (dict_set k v d) = Some v.
Proof. rewrite dict_get_set. by destruct (decide (k = k)). Qed.

Lemma dict_get_set_ne k k' v d :
  k ≠ k' → dict_get k' (dict_set k v d) = dict_get k' d.
Proof. intros Hne. rewrite dict_get_set. by destruct (decide (k = k')). Qed.

Lemma dict_get_None k d : dict_get k d = None ↔ k ∉ d.*1.
Proof.
  induction d as [ | [k0 v0] d IH]; simpl.
  - split; [intros _; apply not_elem_of_nil | done].
  - rewrite not_elem_of_cons.
    destruct (decide (k0 = k)) as [-> | Hne]; [split; [done | tauto] | ].
    rewrite IH. split; [by split | tauto].
Qed.

Lemma dict_get_Some_elem_of k v d : dict_get k d = Some v → (k, v) ∈ d.
Proof.
  induction d as [ | [k0 v0] d IH]; simpl; [done | ].
  destruct (decide (k0 = k)) as [-> | Hne].
  - intros [= ->]. apply list_elem_of_here.
  - intros H. apply list_elem_of_further. by apply IH.
Qed.

(** Assignment keeps the keys apart. *)
Lemma dict_set_keys k v d :
  (dict_set k v d).*1 = if decide (k ∈ d.*1) then d.*1 else d.*1 ++ [k].
Proof.
  induction d as [ | [k0 v0] d IH]; csimpl; [done | ].
  destruct (decide (k0 = k)) as [-> | Hne]; csimpl.
  - destruct (decide (k ∈ k :: d.*1)) as [ | Hn]; [done | ].
    destruct Hn. apply list_elem_of_here.
  - rewrite IH. destruct (decide (k ∈ d.*1)) as [Hin | Hnin].
    + destruct (decide (k ∈ k0 :: d.*1)) as [ | Hn]; [done | ].
      destruct Hn. by apply list_elem_of_further.
    + destruct (decide (k ∈ k0 :: d.*1)) as [Hin' | ]; [ | done].
      apply elem_of_cons in Hin' as [-> | ?]; done.
Qed.

Lemma dict_set_wf k v d : dict_wf d → dict_wf (dict_set k v d).
Proof.
  unfold dict_wf. intros Hd. rewrite dict_set_keys.
  destruct (decide (k ∈ d.*1)) as [ | Hnin]; [done | ].
  apply NoDup_app. split; [done | ]. split.
  - intros x Hx ->%list_elem_of_singleton. done.
  - apply NoDup_singleton.
Qed.

(** A run of assignments [d[k] = v], for the pairs of [kvs] in order. *)
Lemma assign_all_notin k kvs : ∀ d,
  k ∉ kvs.*1 →
  dict_get k (fold_left (λ acc kv, dict_set kv.1 kv.2 acc) kvs d) =
  dict_get k d.
Proof.
  induction kvs as [ | [k0 v0] kvs IH]; intros d Hk; simpl; [done | ].
  simpl in Hk. apply not_elem_of_cons in Hk as [Hne Hk].
  rewrite IH by done. by apply dict_get_set_ne.
Qed.

Lemma assign_all_last k v l1 l2 d :
  k ∉ l2.*1 →
  dict_get k (fold_left (λ acc kv, dict_set kv.1 kv.2 acc)
                (l1 ++ (k, v) :: l2) d) = Some v.
Proof.
  intros Hk. rewrite fold_left_app. simpl.
  rewrite assign_all_notin by done. apply dict_get_set_eq.
Qed.

Lemma assign_all_Some k v kvs d :
  dict_get k (fold_left (λ acc kv, dict_set kv.1 kv.2 acc) kvs d) = Some v →
  (∃ l1 l2, kvs = l1 ++ (k, v) :: l2 ∧ k ∉ l2.*1) ∨
  ((k ∉ kvs.*1) ∧ dict_get k d = Some v).
Proof.
  induction kvs as [ | [k0 v0] kvs IH] using rev_ind.
  - simpl. intros H. right. split; [apply not_elem_of_nil | done].
  - rewrite fold_left_app. simpl. rewrite dict_get_set.
    destruct (decide (k0 = k)) as [-> | Hne].
    + intros [= ->]. left. exists kvs, []. split; [done | ].
      apply not_elem_of_nil.
    + intros [(l1 & l2 & -> & Hl2) | [Hnin Hd]]%IH.
      * left. exists l1, (l2 ++ [(k0, v0)]). split.
        { by rewrite <- app_assoc. }
        rewrite fmap_app. simpl. rewrite elem_of_app, list_elem_of_singleton.
        intros [? | ?]; done.
      * right. split; [ | done]. rewrite fmap_app. simpl.
        rewrite elem_of_app, list_elem_of_singleton. intros [? | ?]; done.
Qed.

Lemma assign_all_wf kvs : ∀ d,
  dict_wf d → dict_wf (fold_left (λ acc kv, dict_set kv.1 kv.2 acc) kvs d).
Proof.
  induction kvs as [ | [k0 v0] kvs IH]; intros d Hd; simpl; [done | ].
  apply IH. by apply dict_set_wf.
Qed.
Lemma assign_all_is_Some k kvs d :
  k ∈ kvs.*1 →
  is_Some (dict_get k (fold_left (λ acc kv, dict_set kv.1 kv.2 acc) kvs d)).
Proof.
  induction kvs as [ | [k0 v0] kvs IH] using rev_ind.
  - by intros ?%elem_of_nil.
  - rewrite fold_left_app, fmap_app. simpl. rewrite dict_get_set.
    destruct (decide (k0 = k)) as [-> | Hne]; [by eexists | ].
    rewrite elem_of_app, list_elem_of_singleton. intros [Hin | ->]; [ | done].
    by apply IH.
Qed.

(** [{**a, **b}[k]] is [b[k]] when [b] has the key, [a[k]] otherwise. *)
Lemma dict_merge_get k (a b : list (K * V)) :
  dict_wf b →
  dict_get k (dict_merge a b) =
  match dict_get k b with Some v => Some v | None => dict_get k a end.
Proof.
  unfold dict_wf, dict_merge. intros Hb. destruct (dict_get k b) as [v | ] eqn:E.
  - apply dict_get_Some_elem_of, list_elem_of_split in E as (l1 & l2 & ->).
    rewrite fmap_app in Hb. apply NoDup_app in Hb as (_ & _ & Hl2).
    simpl in Hl2. apply NoDup_cons in Hl2 as [Hk _].
    by apply assign_all_last.
  - apply dict_get_None in E. by apply assign_all_notin.
Qed.
End DictFacts.

(** [sorted(_, key=len, reverse=True)] permutes its argument and orders it
    by length, longest first. *)
Lemma insert_len_desc_perm x l : insert_len_desc x l ≡ₚ x :: l.
Proof.
  induction l as [ | y l IH]; simpl; [done | ].
  destruct (String.length y <=? String.length x)%nat; [done | ].
  rewrite IH. apply Permutation_swap.
Qed.

Lemma sorted_len_reverse_perm l : sorted_len_reverse l ≡ₚ l.
Proof.
  induction l as [ | x l IH]; simpl; [done | ].
  rewrite insert_len_desc_perm. by rewrite IH.
Qed.

Lemma insert_len_desc_sorted x l :
  StronglySorted (λ a b, (String.length b ≤ String.length a)%nat) l →
  StronglySorted (λ a b, (String.length b ≤ String.length a)%nat)
    (insert_len_desc x l).
Proof.
  induction 1 as [ | y l Hl IH Hy]; simpl.
  - constructor; [constructor | constructor].
  - destruct (String.length y <=? String.length x)%nat eqn:E.
    + apply Nat.leb_le in E. constructor; [by constructor | ].
      constructor; [done | ].
      eapply Forall_impl; [exact Hy | ]. simpl. intros z Hz. lia.
    + apply Nat.leb_gt in E. constructor; [exact IH | ].
      rewrite insert_len_desc_perm. constructor; [lia | exact Hy].
Qed.

Lemma sorted_len_reverse_sorted l :
  StronglySorted (λ a b, (String.length b ≤ String.length a)%nat)
    (sorted_len_reverse l).
Proof.
  induction l as [ | x l IH]; simpl; [constructor | ].
  by apply insert_len_desc_sorted.
Qed.

Lemma StronglySorted_filter {A} (R : A → A → Prop) (f : A → bool) l :
  StronglySorted R l → StronglySorted R (List.filter f l).
Proof.
  induction 1 as [ | x l Hl IH Hx]; simpl; [constructor | ].
  destruct (f x); [ | exact IH]. constructor; [exact IH | ].
  apply Forall_forall. intros y Hy%list_elem_of_In%filter_In.
  destruct Hy as [Hy _]. apply list_elem_of_In in Hy.
  by eapply (proj1 (Forall_forall _ _) Hx).
Qed.

End PyFacts.

(** ** preprocessjson.py: the pure function *)

Module PreprocessjsonFacts.
Import Py Preprocessjson.

(** Induction over trees, with the hypothesis for every child. *)
Lemma json_induction (P : json → Prop) :
  P JNull → (∀ b, P (JBool b)) → (∀ z, P (JInt z)) → (∀ f, P (JFloat f)) →
  (∀ s, P (JStr s)) →
  (∀ l, Forall P l → P (JList l)) →
  (∀ d, Forall (λ kv, P kv.2) d → P (JDict d)) →
  ∀ t, P t.
Proof.
  intros Hnull Hbool Hint Hfloat Hstr Hlist Hdict.
  fix IH 1. intros [ | b | z | f | s | l | d].
  - exact Hnull.
  - apply Hbool.
  - apply Hint.
  - apply Hfloat.
  - apply Hstr.
  - apply Hlist. induction l as [ | x l IHl]; constructor.
    + apply IH.
    + exact IHl.
  - apply Hdict. induction d as [ | [k v] d IHd]; constructor.
    + apply IH.
    + exact IHd.
Qed.

(** The two comprehensions, as list functions. *)
Lemma remove_null_types_list l :
  remove_null_types (JList l) =
  JList (List.filter (λ r, negb (is_None r)) (map remove_null_types l)).
Proof.
  simpl. f_equal. induction l as [ | x l IHl]; simpl; [done | ].
  destruct (negb (is_None (remove_null_types x))); by rewrite IHl.
Qed.

Lemma remove_null_types_dict d :
  remove_null_types (JDict d) =
  if has_null_type d then JNull
  else JDict (map (λ kv, (kv.1, remove_null_types kv.2)) d).
Proof. reflexivity. Qed.

Lemma holds_null_type_list l :
  holds_null_type (JList l) = existsb holds_null_type l.
Proof. simpl. induction l as [ | x l IHl]; simpl; [done | by rewrite IHl]. Qed.

Lemma holds_null_type_dict d :
  holds_null_type (JDict d) =
  has_null_type d || existsb (λ kv, holds_null_type kv.2) d.
Proof. reflexivity. Qed.

Lemma no_None_items_list l :
  no_None_items (JList l) =
  forallb (λ i, negb (is_None i) && no_None_items i) l.
Proof. simpl. induction l as [ | x l IHl]; simpl; [done | by rewrite IHl]. Qed.

Lemma no_None_items_dict d :
  no_None_items (JDict d) = forallb (λ kv, no_None_items kv.2) d.
Proof. simpl. induction d as [ | x d IHd]; simpl; [done | by rewrite IHd]. Qed.

Lemma dict_get_map_values {A B} (f : A → B) k (d : list (string * A)) :
  dict_get k (map (λ kv, (kv.1, f kv.2)) d) = f <$> dict_get k d.
Proof.
  induction d as [ | [k' v] d IHd]; simpl; [done | ].
  destruct (decide (k' = k)); [done | exact IHd].
Qed.

Lemma map_values_keys {A B} (f : A → B) (d : list (string * A)) :
  (map (λ kv, (kv.1, f kv.2)) d).*1 = d.*1.
Proof.
  induction d as [ | [k v] d IHd]; [done | ].
  cbn [map fmap list_fmap fst]. f_equal. exact IHd.
Qed.

(** A tree without removable mappings and without [None] list items is a
    fixed point. *)
Lemma remove_null_types_fixed t :
  no_None_items t = true → holds_null_type t = false →
  remove_null_types t = t.
Proof.
  induction t as [ | b | z | f | s | l IH | d IH] using json_induction;
    try reflexivity.
  - rewrite no_None_items_list, holds_null_type_list, remove_null_types_list.
    intros Hclean Hnone. f_equal.
    induction IH as [ | x l Hx _ IHl]; simpl in *; [done | ].
    apply andb_prop in Hclean as [Hx' Hl]. apply andb_prop in Hx' as [Hx1 Hx2].
    apply orb_false_elim in Hnone as [Hn1 Hn2].
    rewrite (Hx Hx2 Hn1), Hx1. f_equal. by apply IHl.
  - rewrite no_None_items_dict, holds_null_type_dict, remove_null_types_dict.
    intros Hclean Hnone. apply orb_false_elim in Hnone as [Hd Hnone].
    rewrite Hd. clear Hd. f_equal.
    induction IH as [ | [k v] d Hx _ IHd]; simpl in *; [done | ].
    apply andb_prop in Hclean as [Hx1 Hl].
    apply orb_false_elim in Hnone as [Hn1 Hn2].
    rewrite (Hx Hx1 Hn1). f_equal. by apply IHd.
Qed.

(** The result never has [None] as a list item. *)
Lemma remove_null_types_no_None_items t :
  no_None_items (remove_null_types t) = true.
Proof.
  induction t as [ | b | z | f | s | l IH | d IH] using json_induction;
    try reflexivity.
  - rewrite remove_null_types_list, no_None_items_list.
    induction IH as [ | x l Hx _ IHl]; simpl; [done | ].
    destruct (is_None (remove_null_types x)) eqn:E; simpl; [exact IHl | ].
    by rewrite E, Hx, IHl.
  - rewrite remove_null_types_dict. destruct (has_null_type d); [done | ].
    rewrite no_None_items_dict.
    induction IH as [ | [k v] d Hx _ IHd]; simpl in *; [done | ].
    by rewrite Hx, IHd.
Qed.

(** A tree that holds a removable mapping is changed. *)
Lemma remove_null_types_changes t :
  holds_null_type t = true → remove_null_types t ≠ t.
Proof.
  induction t as [ | b | z | f | s | l IH | d IH] using json_induction;
    try discriminate.
  - rewrite holds_null_type_list, remove_null_types_list.
    intros Hex Heq. injection Heq as Heq.
    induction IH as [ | x l Hx _ IHl]; simpl in *; [done | ].
    destruct (negb (is_None (remove_null_types x))) eqn:E.
    + injection Heq as Heq1 Heq2.
      apply orb_prop in Hex as [Hex | Hex]; [by apply Hx | by apply IHl].
    + apply (f_equal length) in Heq. simpl in Heq.
      pose proof (List.filter_length_le (λ r, negb (is_None r))
                    (map remove_null_types l)) as Hle.
      rewrite length_map in Hle. lia.
  - rewrite holds_null_type_dict, remove_null_types_dict.
    destruct (has_null_type d); [done | ]. simpl.
    intros Hex Heq. injection Heq as Heq.
    induction IH as [ | [k v] d Hx _ IHd]; simpl in *; [done | ].
    injection Heq as Heq1 Heq2.
    apply orb_prop in Hex as [Hex | Hex]; [by apply Hx | by apply IHd].
Qed.

(** Necessity of the side condition of the idempotence theorem below. *)
Lemma remove_null_types_twice_only_if t :
  remove_null_types (remove_null_types t) = remove_null_types t →
  holds_null_type (remove_null_types t) = false.
Proof.
  intros Heq. destruct (holds_null_type (remove_null_types t)) eqn:E; [ | done].
  by apply remove_null_types_changes in E.
Qed.

(** C2, as stated, fails. The top-down pass tests a mapping before it
    cleans the mapping's values, so cleaning can make a mapping removable:
    [{"type": ["null", {"type": ["null"]}]}] becomes [{"type": ["null"]}],
    which a second pass replaces by [None]. *)
Lemma remove_null_types_not_idempotent :
  ¬ (∀ x, remove_null_types (remove_null_types x) = remove_null_types x).
Proof.
  intros H.
  specialize (H (JDict [("type", JList [JStr "null";
                                         JDict [("type", JList [JStr "null"])]])])).
  vm_compute in H. discriminate H.
Qed.

(** C2, amended: a second pass changes nothing whenever the first result
    holds no mapping whose "type" is [["null"]]. *)
Theorem remove_null_types_idempotent_when_clean x :
  holds_null_type (remove_null_types x) = false →
  remove_null_types (remove_null_types x) = remove_null_types x.
Proof.
  intros Hclean. apply remove_null_types_fixed; [ | exact Hclean].
  apply remove_null_types_no_None_items.
Qed.

Lemma remove_null_types_idempotent_when_clean_witness :
  holds_null_type (remove_null_types any_of_schema) = false ∧
  remove_null_types (remove_null_types any_of_schema) =
  remove_null_types any_of_schema.
Proof.
  split; [reflexivity | ].
  apply (remove_null_types_idempotent_when_clean any_of_schema). reflexivity.
Defined.

(** C5: a mapping whose "type" is exactly [["null"]] yields [None]; a
    sequence yields the sequence of its sanitized elements without those
    that are [None]; a scalar is returned as it is; and the two examples of
    the specification. *)
Theorem remove_null_types_rules :
  (∀ d, dict_get "type" d = Some (JList [JStr "null"]) →
        remove_null_types (JDict d) = JNull) ∧
  (∀ l, remove_null_types (JList l) =
        JList (List.filter (λ r, negb (is_None r))
                 (map remove_null_types l))) ∧
  (∀ t, is_scalar t = true → remove_null_types t = t) ∧
  remove_null_types any_of_schema =
    JDict [("anyOf", JList [JDict [("type", JStr "string")]])] ∧
  remove_null_types (JList [JDict [("type", JList [JStr "null"])]; JInt 5]) =
    JList [JInt 5].
Proof.
  repeat split.
  - intros d Hd. rewrite remove_null_types_dict. unfold has_null_type.
    by rewrite Hd.
  - apply remove_null_types_list.
  - by intros [ | | | | | | ].
Qed.

Lemma remove_null_types_rules_witness :
  remove_null_types (JDict [("title", JStr "t");
                            ("type", JList [JStr "null"])]) = JNull ∧
  remove_null_types (JStr "null") = JStr "null".
Proof.
  destruct remove_null_types_rules as (Hdict & _ & Hscalar & _).
  split.
  - apply Hdict. reflexivity.
  - apply Hscalar. reflexivity.
Defined.

(** C6: a mapping that is not removed keeps its keys, in order, each with
    its sanitized value, [None] included. *)
Theorem remove_null_types_keeps_keys d :
  has_null_type d = false →
  ∃ d', remove_null_types (JDict d) = JDict d' ∧
        d'.*1 = d.*1 ∧
        ∀ k, dict_get k d' = remove_null_types <$> dict_get k d.
Proof.
  intros Hd. exists (map (λ kv, (kv.1, remove_null_types kv.2)) d).
  rewrite remove_null_types_dict, Hd. split; [done | ]. split.
  - apply map_values_keys.
  - intros k. apply dict_get_map_values.
Qed.

Lemma remove_null_types_keeps_keys_witness :
  ∃ d', remove_null_types
          (JDict [("default", JDict [("type", JList [JStr "null"])])]) =
        JDict d' ∧
        d'.*1 = ["default"] ∧ dict_get "default" d' = Some JNull.
Proof.
  destruct (remove_null_types_keeps_keys
              [("default", JDict [("type", JList [JStr "null"])])])
    as (d' & Hrun & Hkeys & Hget); [reflexivity | ].
  exists d'. split; [exact Hrun | ]. split; [exact Hkeys | ].
  rewrite Hget. reflexivity.
Defined.

End PreprocessjsonFacts.

(** ** preprocessjson.py: the function over the object store *)

Module StoreFacts.
Import Py Preprocessjson PreprocessjsonFacts.

Lemma hbind_Some {A B} (m : HM A) (k : A → HM B) h b h' :
  hbind m k h = Some (b, h') →
  ∃ a h1, m h = Some (a, h1) ∧ k a h1 = Some (b, h').
Proof.
  unfold hbind. destruct (m h) as [[a h1] | ]; [ | done]. intros Hk. eauto.
Qed.

Lemma alloc_fresh o h v h' :
  alloc o h = Some (v, h') →
  ∃ l, v = VRef l ∧ h !! l = None ∧ h' = <[l := o]> h.
Proof.
  unfold alloc. intros [= <- <-]. eexists. split; [done | ]. split; [ | done].
  apply not_elem_of_dom, is_fresh.
Qed.

Lemma alloc_extends o h v h' : alloc o h = Some (v, h') → h ⊆ h'.
Proof. intros (l & -> & Hl & ->)%alloc_fresh. by apply insert_subseteq. Qed.

(** *** The store only grows *)

Section Comprehensions.
Variable f : pyval → HM pyval.
Hypothesis f_extends : ∀ v h r h', f v h = Some (r, h') → h ⊆ h'.

Lemma dict_comprehension_extends es : ∀ h es' h',
  dict_comprehension f es h = Some (es', h') → h ⊆ h'.
Proof.
  induction es as [ | [k v] es IH]; intros h es' h'; simpl.
  - by intros [= _ <-].
  - intros (v' & h1 & Hv & Hrest)%hbind_Some.
    apply hbind_Some in Hrest as (rest' & h2 & Hrest & [= _ <-]).
    etrans; [by eapply f_extends | by eapply IH].
Qed.

Lemma list_comprehension_extends items : ∀ h items' h',
  list_comprehension f items h = Some (items', h') → h ⊆ h'.
Proof.
  induction items as [ | item items IH]; intros h items' h'; simpl.
  - by intros [= _ <-].
  - intros (c & h1 & Hc & Hrest)%hbind_Some.
    destruct (negb (is_VNone c)).
    + apply hbind_Some in Hrest as (r & h2 & Hr & Hrest).
      apply hbind_Some in Hrest as (rest' & h3 & Hrest & [= _ <-]).
      etrans; [by eapply f_extends | ].
      etrans; [by eapply f_extends | by eapply IH].
    + etrans; [by eapply f_extends | by eapply IH].
Qed.
End Comprehensions.

Lemma remove_null_types_h_extends fuel : ∀ schema h r h',
  remove_null_types_h fuel schema h = Some (r, h') → h ⊆ h'.
Proof.
  induction fuel as [ | fuel IH]; intros schema h r h'; simpl; [done | ].
  destruct schema as [ | b | z | f | s | l]; try by intros [= _ <-].
  destruct (h !! l) as [[items | d] | ] eqn:Hl; [ | | done].
  - intros (items' & h1 & Hitems & Halloc)%hbind_Some.
    etrans; [ | by eapply alloc_extends].
    by eapply list_comprehension_extends.
  - destruct (has_null_type_h h d); [by intros [= _ <-] | ].
    intros (d' & h1 & Hd & Halloc)%hbind_Some.
    etrans; [ | by eapply alloc_extends].
    by eapply dict_comprehension_extends.
Qed.

(** A container that is returned did not exist before the call. *)
Lemma remove_null_types_h_fresh fuel schema h l h' :
  remove_null_types_h fuel schema h = Some (VRef l, h') →
  h !! l = None ∧ is_Some (h' !! l).
Proof.
  destruct fuel as [ | fuel]; simpl; [done | ].
  destruct schema as [ | b | z | f | s | l0]; try by intros [= ].
  destruct (h !! l0) as [[items | d] | ] eqn:Hl; [ | | done].
  - intros (items' & h1 & Hitems & Halloc)%hbind_Some.
    apply alloc_fresh in Halloc as (l' & [= <-] & Hfresh & ->).
    split; [ | by rewrite lookup_insert_eq].
    eapply lookup_weaken_None; [exact Hfresh | ].
    eapply list_comprehension_extends; [ | exact Hitems].
    apply remove_null_types_h_extends.
  - destruct (has_null_type_h h d); [by intros [= ] | ].
    intros (d' & h1 & Hd & Halloc)%hbind_Some.
    apply alloc_fresh in Halloc as (l' & [= <-] & Hfresh & ->).
    split; [ | by rewrite lookup_insert_eq].
    eapply lookup_weaken_None; [exact Hfresh | ].
    eapply dict_comprehension_extends; [ | exact Hd].
    apply remove_null_types_h_extends.
Qed.

(** *** Trees in the store *)

Lemma repr_weaken h h' : h ⊆ h' → ∀ t v, repr h v t → repr h' v t.
Proof.
  intros Hsub.
  induction t as [ | b | z | f | s | ts IH | ts IH] using json_induction;
    intros v Hv; inversion Hv; subst; try constructor.
  - econstructor; [by eapply lookup_weaken | ].
    match goal with H : Forall2 _ _ ts |- _ => revert H end.
    clear -IH. intros H. induction H as [ | v t vs ts Hvt _ IHvs];
      constructor; inversion IH; subst; auto.
  - econstructor; [by eapply lookup_weaken | ].
    match goal with H : Forall2 _ _ ts |- _ => revert H end.
    clear -IH. intros H. induction H as [ | e t es ts [Hk Hvt] _ IHes];
      constructor; inversion IH; subst; auto.
Qed.

Lemma repr_is_None h v t : repr h v t → is_VNone v = is_None t.
Proof. by inversion 1. Qed.

Lemma repr_eq_null_list h v t :
  repr h v t → eq_null_list_h h v = eq_null_list t.
Proof.
  inversion 1 as [ | | | | | l vs ts Hl Hvs | l es ts Hl Hes]; subst;
    try reflexivity; simpl; rewrite Hl; [ | done].
  destruct Hvs as [ | v1 t1 vs ts H1 Hvs]; [done | ].
  destruct Hvs as [ | v2 t2 vs ts H2 Hvs].
  - by inversion H1.
  - inversion H1; subst; try done.
Qed.

Lemma repr_has_null_type h es ts :
  Forall2 (λ e t, e.1 = t.1 ∧ repr h e.2 t.2) es ts →
  has_null_type_h h es = has_null_type ts.
Proof.
  unfold has_null_type_h, has_null_type.
  induction 1 as [ | [k v] [k' t] es ts [Hk Hv] _ IH]; simpl in *; [done | ].
  subst k'. destruct (decide (k = "type")); [ | exact IH].
  by eapply repr_eq_null_list.
Qed.

Lemma depth_list_le n ts :
  (depth (JList ts) ≤ S n)%nat → Forall (λ t, (depth t ≤ n)%nat) ts.
Proof.
  simpl. intros H. apply le_S_n in H.
  induction ts as [ | t ts IH]; constructor; [lia | apply IH; lia].
Qed.

Lemma depth_dict_le n (ts : list (string * json)) :
  (depth (JDict ts) ≤ S n)%nat → Forall (λ kv, (depth kv.2 ≤ n)%nat) ts.
Proof.
  simpl. intros H. apply le_S_n in H.
  induction ts as [ | t ts IH]; constructor; [lia | apply IH; lia].
Qed.

(** *** The run on a tree returns, and returns the tree of the pure
    function *)

Section Refinement.
Variable n : nat.

(** What the induction gives for a child [t]. *)
Let refines (t : json) : Prop :=
  ∀ h v, repr h v t →
    ∃ r h', remove_null_types_h n v h = Some (r, h') ∧
            repr h' r (remove_null_types t) ∧ h ⊆ h'.

Lemma list_comprehension_refines ts :
  Forall refines ts →
  ∀ vs h, Forall2 (repr h) vs ts →
    ∃ rs h', list_comprehension (remove_null_types_h n) vs h = Some (rs, h') ∧
             Forall2 (repr h') rs
               (List.filter (λ r, negb (is_None r))
                  (map remove_null_types ts)) ∧
             h ⊆ h'.
Proof.
  induction 1 as [ | t ts Ht _ IH]; intros vs h Hvs.
  - inversion Hvs; subst. exists [], h.
    split; [done | ]. split; [constructor | done].
  - inversion Hvs as [ | v t' vs' ts' Hv Hvs']; subst. simpl.
    destruct (Ht h v Hv) as (c & h1 & Hc & Hrc & Hh1).
    unfold hbind at 1. rewrite Hc.
    rewrite (repr_is_None _ _ _ Hrc).
    destruct (negb (is_None (remove_null_types t))) eqn:E.
    + destruct (Ht h1 v (repr_weaken _ _ Hh1 _ _ Hv)) as (r & h2 & Hr & Hrr & Hh2).
      unfold hbind at 1. rewrite Hr.
      destruct (IH vs' h2) as (rs & h3 & Hrs & Hrrs & Hh3).
      { eapply Forall2_impl; [exact Hvs' | ]. intros x y Hxy.
        eapply repr_weaken; [ | exact Hxy]. by etrans. }
      unfold hbind at 1. rewrite Hrs. exists (r :: rs), h3.
      split; [done | ]. split.
      * constructor; [by eapply repr_weaken | exact Hrrs].
      * etrans; [exact Hh1 | ]. by etrans.
    + destruct (IH vs' h1) as (rs & h3 & Hrs & Hrrs & Hh3).
      { eapply Forall2_impl; [exact Hvs' | ]. intros x y Hxy.
        by eapply repr_weaken. }
      exists rs, h3. split; [done | ]. split; [done | by etrans].
Qed.

Lemma dict_comprehension_refines (ts : list (string * json)) :
  Forall (λ kv, refines kv.2) ts →
  ∀ es h, Forall2 (λ e t, e.1 = t.1 ∧ repr h e.2 t.2) es ts →
    ∃ rs h', dict_comprehension (remove_null_types_h n) es h = Some (rs, h') ∧
             Forall2 (λ e t, e.1 = t.1 ∧ repr h' e.2 t.2) rs
               (map (λ kv, (kv.1, remove_null_types kv.2)) ts) ∧
             h ⊆ h'.
Proof.
  induction 1 as [ | [k t] ts Ht _ IH]; intros es h Hes.
  - inversion Hes; subst. exists [], h.
    split; [done | ]. split; [constructor | done].
  - inversion Hes as [ | [k' v] t' es' ts' [Hk Hv] Hes']; subst.
    simpl in *. subst k'.
    destruct (Ht h v Hv) as (r & h1 & Hr & Hrr & Hh1).
    unfold hbind at 1. rewrite Hr.
    destruct (IH es' h1) as (rs & h2 & Hrs & Hrrs & Hh2).
    { eapply Forall2_impl; [exact Hes' | ]. intros x y [Hxy1 Hxy2].
      split; [done | by eapply repr_weaken]. }
    unfold hbind at 1. rewrite Hrs. exists ((k, r) :: rs), h2.
    split; [done | ]. split.
    + constructor; [ | exact Hrrs]. split; [done | by eapply repr_weaken].
    + by etrans.
Qed.
End Refinement.

Lemma remove_null_types_h_refines t : ∀ fuel h v,
  repr h v t → (depth t ≤ fuel)%nat →
  ∃ r h', remove_null_types_h fuel v h = Some (r, h') ∧
          repr h' r (remove_null_types t) ∧ h ⊆ h'.
Proof.
  induction t as [ | b | z | f | s | ts IH | ts IH] using json_induction;
    intros fuel h v Hv Hfuel.
  1-5: destruct fuel as [ | fuel]; [simpl in Hfuel; lia | ];
       inversion Hv; subst; eexists _, h; by repeat split.
  - destruct fuel as [ | fuel]; [simpl in Hfuel; lia | ].
    apply depth_list_le in Hfuel.
    inversion Hv as [ | | | | | l vs ts' Hl Hvs | ]; subst.
    destruct (list_comprehension_refines fuel ts) with (vs := vs) (h := h)
      as (rs & h1 & Hrs & Hrrs & Hh1); [ | exact Hvs | ].
    { apply Forall_forall. intros t Ht h0 v0 Hv0.
      eapply (proj1 (Forall_forall _ _) IH); [exact Ht | exact Hv0 | ].
      by eapply (proj1 (Forall_forall _ _) Hfuel). }
    rewrite remove_null_types_list. cbn [remove_null_types_h].
    rewrite Hl. unfold hbind. rewrite Hrs.
    destruct (alloc (OList rs) h1) as [[r h2] | ] eqn:Ha; [ | done].
    pose proof (alloc_extends _ _ _ _ Ha) as Hh2.
    apply alloc_fresh in Ha as (l' & -> & Hfresh & ->).
    eexists _, _. split; [done | ]. split; [ | by etrans].
    econstructor; [by rewrite lookup_insert_eq | ].
    eapply Forall2_impl; [exact Hrrs | ]. intros x y Hxy.
    by eapply repr_weaken.
  - destruct fuel as [ | fuel]; [simpl in Hfuel; lia | ].
    apply depth_dict_le in Hfuel.
    inversion Hv as [ | | | | | | l es ts' Hl Hes]; subst.
    rewrite remove_null_types_dict. cbn [remove_null_types_h].
    rewrite Hl, (repr_has_null_type _ _ _ Hes).
    destruct (has_null_type ts).
    { eexists _, h. split; [done | ]. split; [constructor | done]. }
    destruct (dict_comprehension_refines fuel ts) with (es := es) (h := h)
      as (rs & h1 & Hrs & Hrrs & Hh1); [ | exact Hes | ].
    { apply Forall_forall. intros t Ht h0 v0 Hv0.
      eapply (proj1 (Forall_forall _ _) IH); [exact Ht | exact Hv0 | ].
      by eapply (proj1 (Forall_forall (λ kv, (depth kv.2 ≤ fuel)%nat) _) Hfuel). }
    unfold hbind. rewrite Hrs.
    destruct (alloc (ODict rs) h1) as [[r h2] | ] eqn:Ha; [ | done].
    pose proof (alloc_extends _ _ _ _ Ha) as Hh2.
    apply alloc_fresh in Ha as (l' & -> & Hfresh & ->).
    eexists _, _. split; [done | ]. split; [ | by etrans].
    econstructor; [by rewrite lookup_insert_eq | ].
    eapply Forall2_impl; [exact Hrrs | ]. intros x y [Hxy1 Hxy2].
    split; [done | by eapply repr_weaken].
Qed.

(** C10: a call never changes an object that existed before it: every
    location of the old store holds the same object afterwards, so the
    argument denotes the same tree as before; a container that is returned
    is a new object. This holds for every store, shared or cyclic contents
    included, and every recursion budget. On an argument that is a tree the
    call returns, and returns the tree that the pure function gives. *)
Theorem remove_null_types_h_leaves_argument h schema :
  (∀ fuel r h', remove_null_types_h fuel schema h = Some (r, h') →
     (∀ l o, h !! l = Some o → h' !! l = Some o) ∧
     (∀ t, repr h schema t → repr h' schema t) ∧
     (∀ l, r = VRef l → h !! l = None ∧ is_Some (h' !! l))) ∧
  (∀ t, repr h schema t →
     ∃ r h', remove_null_types_h (depth t) schema h = Some (r, h') ∧
             repr h' r (remove_null_types t)).
Proof.
  split.
  - intros fuel r h' Hrun.
    pose proof (remove_null_types_h_extends _ _ _ _ _ Hrun) as Hsub.
    split; [ | split].
    + intros l o Hl. by eapply lookup_weaken.
    + intros t Ht. by eapply repr_weaken.
    + intros l ->. by eapply remove_null_types_h_fresh.
  - intros t Ht.
    destruct (remove_null_types_h_refines t (depth t) h schema Ht)
      as (r & h' & Hrun & Hr & _); [done | ]. eauto.
Qed.

Lemma example_store_repr :
  Fixture.repr_example.
Proof.
  unfold Fixture.repr_example, Fixture.example_tree.
  eapply repr_list; [reflexivity | ].
  constructor; [ | constructor; [constructor | constructor]].
  eapply repr_dict; [reflexivity | ].
  constructor; [ | constructor]. split; [reflexivity | ]. simpl.
  eapply repr_list; [reflexivity | ].
  constructor; [constructor | constructor].
Defined.

Lemma remove_null_types_h_leaves_argument_witness :
  ∃ r h', remove_null_types_h 3 (VRef 1%positive) Fixture.example_store
            = Some (r, h') ∧
          repr h' r (JList [JInt 5]) ∧
          repr h' (VRef 1%positive) Fixture.example_tree ∧
          ∀ l, r = VRef l → Fixture.example_store !! l = None.
Proof.
  destruct (remove_null_types_h_leaves_argument Fixture.example_store
              (VRef 1%positive)) as [Hframe Hruns].
  destruct (Hruns _ example_store_repr) as (r & h' & Hrun & Hr).
  destruct (Hframe _ _ _ Hrun) as (_ & Hsame & Hnew).
  exists r, h'. split; [exact Hrun | ]. split; [exact Hr | ]. split.
  - apply Hsame, example_store_repr.
  - intros l Hl. by apply Hnew.
Defined.

End StoreFacts.


(** ** src/wic/plugins.py *)

Module PluginsFacts.
Import Py Preprocessjson Plugins PyFacts.

(** *** Running the monad *)

Lemma bind_Ok {A B} (m : M A) (k : A → M B) out b out' :
  bind m k out = (Ok b, out') →
  ∃ a out1, m out = (Ok a, out1) ∧ k a out1 = (Ok b, out').
Proof.
  unfold bind. destruct (m out) as [[a | e] out1]; [eauto | done].
Qed.

Lemma lift_Ok {A} (r : result A) out a out' :
  lift r out = (Ok a, out') → r = Ok a ∧ out' = out.
Proof. by intros [= -> <-]. Qed.

Lemma ret_Ok {A} (x : A) out a out' :
  ret x out = (Ok a, out') → a = x ∧ out' = out.
Proof. by intros [= -> <-]. Qed.

Section WithWorld.
Context (W : World).

(** *** The workflow catalog *)

Lemma yml_paths_of_assign L :
  yml_paths_of W L =
  fold_left (λ acc kv, dict_set kv.1 kv.2 acc)
    (map (λ p, (path_stem W p, abspath W p))
       (List.filter (λ p, negb (str_contains "_inputs" p)) L)) [].
Proof.
  unfold yml_paths_of. generalize (@nil (string * string)).
  induction L as [ | p L IH]; intros acc; simpl; [done | ].
  destruct (negb (str_contains "_inputs" p)); simpl; apply IH.
Qed.

Lemma yml_paths_dir_wf dir : dict_wf (yml_paths_dir W dir).
Proof.
  unfold yml_paths_dir. rewrite yml_paths_of_assign.
  apply assign_all_wf, NoDup_nil_2.
Qed.

(** The entry of a stem in the dict of one registry line: a shortest of
    the paths of that stem which are not excluded. *)
Lemma yml_paths_dir_Some dir s a :
  dict_get s (yml_paths_dir W dir) = Some a →
  ∃ p, p ∈ glob_recursive W (path_join W dir "**/*.yml") ∧
       str_contains "_inputs" p = false ∧
       path_stem W p = s ∧ a = abspath W p ∧
       ∀ q, q ∈ glob_recursive W (path_join W dir "**/*.yml") →
            str_contains "_inputs" q = false → path_stem W q = s →
            (String.length p ≤ String.length q)%nat.
Proof.
  unfold yml_paths_dir. rewrite yml_paths_of_assign.
  set (g := glob_recursive W _).
  intros [(l1 & l2 & Hsplit & Hl2) | [_ Hnil]]%assign_all_Some; [ | done].
  apply map_eq_app in Hsplit as (L1 & L2' & Hfilter & <- & Hrest).
  destruct L2' as [ | p L2]; [done | ]. simpl in Hrest.
  injection Hrest as Hs Ha Hrest. subst l2.
  assert (Hp : p ∈ List.filter (λ p, negb (str_contains "_inputs" p))
                 (sorted_len_reverse g)).
  { rewrite Hfilter. apply elem_of_app. right. apply list_elem_of_here. }
  apply list_elem_of_In, filter_In in Hp as [Hp Hkeep].
  apply list_elem_of_In in Hp. rewrite sorted_len_reverse_perm in Hp.
  apply negb_true_iff in Hkeep.
  exists p. repeat split; try done.
  intros q Hq Hqkeep Hqs.
  assert (Hq' : q ∈ L1 ++ p :: L2).
  { rewrite <- Hfilter. apply list_elem_of_In, filter_In. split.
    - apply list_elem_of_In. by rewrite sorted_len_reverse_perm.
    - by rewrite Hqkeep. }
  pose proof (StronglySorted_filter _
                (λ p, negb (str_contains "_inputs" p)) _
                (sorted_len_reverse_sorted g)) as Hsorted.
  rewrite Hfilter in Hsorted.
  apply elem_of_app in Hq' as [Hq' | Hq'].
  - eapply (StronglySorted_app_1_elem_of _ _ _ q p Hsorted); [done | ].
    apply list_elem_of_here.
  - apply elem_of_cons in Hq' as [-> | Hq']; [done | ].
    destruct Hl2. rewrite <- Hqs.
    apply list_elem_of_fmap. exists (path_stem W q, abspath W q).
    split; [done | ]. apply list_elem_of_In, in_map_iff.
    exists q. split; [done | by apply list_elem_of_In].
Qed.

Lemma yml_paths_dir_is_Some dir p :
  p ∈ glob_recursive W (path_join W dir "**/*.yml") →
  str_contains "_inputs" p = false →
  is_Some (dict_get (path_stem W p) (yml_paths_dir W dir)).
Proof.
  intros Hp Hkeep. unfold yml_paths_dir. rewrite yml_paths_of_assign.
  apply assign_all_is_Some.
  apply list_elem_of_fmap. exists (path_stem W p, abspath W p).
  split; [done | ]. apply list_elem_of_In, in_map_iff.
  exists p. split; [done | ]. apply filter_In. split.
  - apply list_elem_of_In. by rewrite sorted_len_reverse_perm.
  - by rewrite Hkeep.
Qed.

Lemma get_yml_paths_dir_Ok file all ns dir out all' out' :
  get_yml_paths_dir W file all (ns, dir) out = (Ok all', out') →
  all' = dict_set ns
           (dict_merge (default [] (dict_get ns all)) (yml_paths_dir W dir))
           all.
Proof.
  unfold get_yml_paths_dir.
  intros (? & out1 & _ & H)%bind_Ok.
  apply bind_Ok in H as (? & out2 & _ & H).
  by apply ret_Ok in H as [-> _].
Qed.

(** One registry line: the entries of its own dict win, all others stay. *)
Lemma catalog_get_merge ns0 dir ns s all :
  catalog_get ns s
    (dict_set ns0
       (dict_merge (default [] (dict_get ns0 all)) (yml_paths_dir W dir))
       all) =
  if decide (ns0 = ns)
  then match dict_get s (yml_paths_dir W dir) with
       | Some a => Some a
       | None => catalog_get ns s all
       end
  else catalog_get ns s all.
Proof.
  unfold catalog_get. rewrite dict_get_set.
  destruct (decide (ns0 = ns)) as [-> | Hne]; [ | done].
  rewrite dict_merge_get by apply yml_paths_dir_wf.
  destruct (dict_get s (yml_paths_dir W dir)); [done | ].
  by destruct (dict_get ns all).
Qed.

(** The whole loop over the registry lines: an entry is that of the last
    line of its namespace whose dict has the stem; without such a line it is
    the entry from before the loop. *)
Lemma for_each_yml_get file lines : ∀ all out all' out',
  for_each (get_yml_paths_dir W file) lines all out = (Ok all', out') →
  ∀ ns s,
    (catalog_get ns s all' = catalog_get ns s all ∧
     ∀ dir, (ns, dir) ∈ lines → dict_get s (yml_paths_dir W dir) = None) ∨
    (∃ before dir after,
       lines = before ++ (ns, dir) :: after ∧
       (∀ dir', (ns, dir') ∈ after →
                dict_get s (yml_paths_dir W dir') = None) ∧
       is_Some (dict_get s (yml_paths_dir W dir)) ∧
       catalog_get ns s all' = dict_get s (yml_paths_dir W dir)).
Proof.
  induction lines as [ | [ns0 dir0] lines IH]; intros all out all' out'.
  - simpl. intros [-> _]%ret_Ok ns s. left. split; [done | ].
    by intros dir ?%elem_of_nil.
  - simpl. intros (all1 & out1 & Hstep & Hrest)%bind_Ok ns s.
    apply get_yml_paths_dir_Ok in Hstep. subst all1.
    destruct (IH _ _ _ _ Hrest ns s)
      as [[Hget Hnone] | (before & dir & after & -> & Hafter & Hsome & Hget)].
    + rewrite catalog_get_merge in Hget.
      destruct (decide (ns0 = ns)) as [-> | Hne].
      * destruct (dict_get s (yml_paths_dir W dir0)) as [a | ] eqn:E.
        -- right. exists [], dir0, lines. rewrite E. by eauto.
        -- left. split; [done | ].
           intros dir [[= ->] | Hin]%elem_of_cons; [done | by apply Hnone].
      * left. split; [done | ].
        intros dir [[= -> _] | Hin]%elem_of_cons; [done | by apply Hnone].
    + right. exists ((ns0, dir0) :: before), dir, after. by eauto.
Qed.

Lemma get_yml_paths_Ok homedir out all out' :
  get_yml_paths W homedir out = (Ok all, out') →
  ∃ yml_dirs out1,
    read_lines_pairs W (yml_dirs_file_of W homedir) = Ok yml_dirs ∧
    for_each (get_yml_paths_dir W (yml_dirs_file_of W homedir)) yml_dirs []
      out1 = (Ok all, out').
Proof.
  unfold get_yml_paths.
  intros (? & out1 & _ & H)%bind_Ok.
  apply bind_Ok in H as (yml_dirs & out2 & [Hread ->]%lift_Ok & H).
  by exists yml_dirs, out1.
Qed.

(** C1, as stated, fails. Two registry lines give the namespace [ns] the
    files [a/foo.yml] and [longer/foo.yml]: one stem, the first path
    strictly shorter; the catalog entry is the longer path, because the
    dict of the later line is merged over that of the earlier one. *)
Lemma shorter_path_loses_across_lines :
  ∃ all out,
    get_yml_paths Fixture.two_lines "/home/u" [] = (Ok all, out) ∧
    read_lines_pairs Fixture.two_lines
      (yml_dirs_file_of Fixture.two_lines "/home/u") =
      Ok [("ns", "a"); ("ns", "longer")] ∧
    "a/foo.yml" ∈ glob_recursive Fixture.two_lines
                    (path_join Fixture.two_lines "a" "**/*.yml") ∧
    "longer/foo.yml" ∈ glob_recursive Fixture.two_lines
                         (path_join Fixture.two_lines "longer" "**/*.yml") ∧
    path_stem Fixture.two_lines "a/foo.yml" = "foo" ∧
    path_stem Fixture.two_lines "longer/foo.yml" = "foo" ∧
    (String.length "a/foo.yml" < String.length "longer/foo.yml")%nat ∧
    catalog_get "ns" "foo" all =
      Some (abspath Fixture.two_lines "longer/foo.yml") ∧
    catalog_get "ns" "foo" all ≠ Some (abspath Fixture.two_lines "a/foo.yml").
Proof.
  eexists _, _. split; [vm_compute; reflexivity | ].
  split; [reflexivity | ].
  split; [vm_compute; apply list_elem_of_here | ].
  split; [vm_compute; apply list_elem_of_here | ].
  split; [reflexivity | ]. split; [reflexivity | ].
  split; [vm_compute; lia | ].
  split; [reflexivity | ]. vm_compute. discriminate.
Qed.

(** C1, amended: every entry of the catalog is the absolute path of a
    shortest path of its stem, not excluded, among the files of one registry
    line of its namespace, namely the last line of that namespace that has
    such a file, whatever the order in which the glob lists the files; and
    every such file gives its stem an entry. *)
Theorem yml_catalog_entry_shortest_of_last_line homedir out all out' :
  get_yml_paths W homedir out = (Ok all, out') →
  ∃ yml_dirs,
    read_lines_pairs W (yml_dirs_file_of W homedir) = Ok yml_dirs ∧
    (∀ ns dir p, (ns, dir) ∈ yml_dirs →
       p ∈ glob_recursive W (path_join W dir "**/*.yml") →
       str_contains "_inputs" p = false →
       is_Some (catalog_get ns (path_stem W p) all)) ∧
    ∀ ns s a, catalog_get ns s all = Some a →
      ∃ before dir after p,
        yml_dirs = before ++ (ns, dir) :: after ∧
        (∀ dir' q, (ns, dir') ∈ after →
           q ∈ glob_recursive W (path_join W dir' "**/*.yml") →
           str_contains "_inputs" q = false → path_stem W q ≠ s) ∧
        p ∈ glob_recursive W (path_join W dir "**/*.yml") ∧
        str_contains "_inputs" p = false ∧
        path_stem W p = s ∧ a = abspath W p ∧
        ∀ q, q ∈ glob_recursive W (path_join W dir "**/*.yml") →
             str_contains "_inputs" q = false → path_stem W q = s →
             (String.length p ≤ String.length q)%nat.
Proof.
  intros (yml_dirs & out1 & Hread & Hloop)%get_yml_paths_Ok.
  exists yml_dirs. split; [exact Hread | ]. split.
  { intros ns dir p Hdir Hp Hkeep.
    pose proof (yml_paths_dir_is_Some dir p Hp Hkeep) as Hsome.
    destruct (for_each_yml_get _ _ _ _ _ _ Hloop ns (path_stem W p))
      as [[_ Hnone] | (before & dir1 & after & _ & _ & Hsome1 & Hget)].
    - rewrite (Hnone dir Hdir) in Hsome. by destruct Hsome.
    - by rewrite Hget. }
  intros ns s a Ha.
  destruct (for_each_yml_get _ _ _ _ _ _ Hloop ns s)
    as [[Hget _] | (before & dir & after & -> & Hafter & _ & Hget)].
  - rewrite Hget in Ha. done.
  - rewrite Hget in Ha.
    apply yml_paths_dir_Some in Ha as (p & Hp & Hkeep & Hs & -> & Hmin).
    exists before, dir, after, p. repeat split; try done.
    intros dir' q Hdir' Hq Hqkeep Hqs.
    pose proof (yml_paths_dir_is_Some dir' q Hq Hqkeep) as Hsome.
    rewrite Hqs, (Hafter dir' Hdir') in Hsome. by destruct Hsome.
Qed.

(** C7: merging the dict of a registry line into the catalog changes, in
    the namespace of that line, the entries of the stems of that dict and
    no others, and leaves every other namespace as it was; so after any
    number of further lines an entry is still the one from before, unless one
    of those lines, of the same namespace, has a file of its stem. *)
Theorem yml_merge_keeps_other_entries file :
  (∀ all ns0 dir out all' out',
     get_yml_paths_dir W file all (ns0, dir) out = (Ok all', out') →
     ∀ ns s, catalog_get ns s all' =
             if decide (ns0 = ns)
             then match dict_get s (yml_paths_dir W dir) with
                  | Some a => Some a
                  | None => catalog_get ns s all
                  end
             else catalog_get ns s all) ∧
  (∀ lines all out all' out',
     for_each (get_yml_paths_dir W file) lines all out = (Ok all', out') →
     ∀ ns s,
       (∀ dir, (ns, dir) ∈ lines → dict_get s (yml_paths_dir W dir) = None) →
       catalog_get ns s all' = catalog_get ns s all).
Proof.
  split.
  - intros all ns0 dir out all' out' ->%get_yml_paths_dir_Ok ns s.
    apply catalog_get_merge.
  - intros lines all out all' out' Hloop ns s Hnone.
    destruct (for_each_yml_get _ _ _ _ _ _ Hloop ns s)
      as [[Hget _] | (before & dir & after & -> & _ & Hsome & _)]; [done | ].
    rewrite Hnone in Hsome; [by destruct Hsome | ].
    apply elem_of_app. right. apply list_elem_of_here.
Qed.

(** *** The tool catalog *)

Lemma validate_cwl_out p skip out r out' :
  validate_cwl W p skip out = (r, out') → out' = out.
Proof.
  unfold validate_cwl, bind, lift, ret.
  destruct (fetch_document W p) as [[[ctx obj] uri] | e];
    [ | by intros [= _ <-]].
  destruct (resolve_and_validate_document W ctx obj uri false)
    as [[ctx' uri'] | e]; [ | by intros [= _ <-]].
  destruct (make_tool W uri' ctx') as [process | e]; by intros [= _ <-].
Qed.

Lemma update_Ok tool k v tool' :
  update tool k v = Ok tool' →
  (∃ d, tool = Loaded (JDict d) ∧ tool' = Loaded (JDict (dict_set k v d))) ∨
  (∃ elements, tool = LoadedSet elements ∧
               tool' = LoadedSet (set_add k elements)).
Proof.
  destruct tool as [[ | | | | | | d] | elements | other]; try done.
  - intros [= <-]. left. eauto.
  - intros [= <-]. right. eauto.
Qed.

(** The two calls of lines 106 and 107, one after the other. *)
Lemma update_twice tool v1 v2 tool1 tool2 :
  update tool "stdout" v1 = Ok tool1 →
  update tool1 "stderr" v2 = Ok tool2 →
  (∃ d, tool = Loaded (JDict d) ∧
        tool2 = Loaded (JDict (dict_set "stderr" v2 (dict_set "stdout" v1 d)))) ∨
  (∃ elements, tool = LoadedSet elements ∧
               tool2 = LoadedSet (set_add "stderr" (set_add "stdout" elements))).
Proof.
  intros [(d & -> & ->) | (elements & -> & ->)]%update_Ok H2.
  - apply update_Ok in H2 as [(d' & [= <-] & ->) | (? & [=] & _)].
    left. eauto.
  - apply update_Ok in H2 as [(? & [=] & _) | (elements' & [= <-] & ->)].
    right. eauto.
Qed.

(** A file that is processed without an exception stores its entry. *)
Lemma get_tools_cwl_file_Ok validate skip ns tools p out tools' out' :
  get_tools_cwl_file W validate skip ns tools p out = (Ok tools', out') →
  out' = out ∧
  if str_contains "biobb_md" p then tools' = tools
  else ∃ e, tool_entry W (ns, p) = Some e ∧ tools' = dict_set e.1 e.2 tools.
Proof.
  unfold get_tools_cwl_file. destruct (str_contains "biobb_md" p).
  { by intros [-> ->]%ret_Ok. }
  intros (tool & out1 & [Hload ->]%lift_Ok & H)%bind_Ok.
  apply bind_Ok in H as ([] & out2 & Hvalidate & H).
  assert (out2 = out) as ->.
  { destruct validate; [by eapply validate_cwl_out | ].
    by apply ret_Ok in Hvalidate as [_ ->]. }
  apply bind_Ok in H as (tool1 & out3 & [Hup1 ->]%lift_Ok & H).
  apply bind_Ok in H as (tool2 & out4 & [Hup2 ->]%lift_Ok & H).
  apply ret_Ok in H as [-> ->]. split; [done | ].
  unfold tool_entry. cbn [fst snd]. rewrite Hload. cbv zeta.
  rewrite Hup1, Hup2. eauto.
Qed.

Lemma for_each_file_Ok validate skip ns paths : ∀ tools out tools' out',
  for_each (get_tools_cwl_file W validate skip ns) paths tools out =
    (Ok tools', out') →
  out' = out ∧
  ∃ es, Forall2 (λ item e, tool_entry W item = Some e)
          (List.filter (λ item, negb (str_contains "biobb_md" item.2))
             (map (λ cwl_path_str, (ns, cwl_path_str)) paths)) es ∧
        tools' = fold_left (λ acc kv, dict_set kv.1 kv.2 acc) es tools.
Proof.
  induction paths as [ | p paths IH]; intros tools out tools' out'; simpl.
  - intros [-> ->]%ret_Ok. split; [done | ]. exists []. by split.
  - intros (tools1 & out1 & Hstep & Hrest)%bind_Ok.
    apply get_tools_cwl_file_Ok in Hstep as [-> Hstep].
    apply IH in Hrest as (-> & es & Hes & ->). split; [done | ].
    destruct (str_contains "biobb_md" p); simpl.
    + subst tools1. by exists es.
    + destruct Hstep as (e & He & ->). exists (e :: es).
      split; [by constructor | done].
Qed.

Lemma processing_order_cons pair cwl_dirs :
  processing_order W (pair :: cwl_dirs) =
  processing_order W [pair] ++ processing_order W cwl_dirs.
Proof.
  unfold processing_order. simpl. rewrite app_nil_r. apply List.filter_app.
Qed.

Lemma get_tools_cwl_dir_Ok validate skip file tools pair out tools' out' :
  get_tools_cwl_dir W validate skip file tools pair out = (Ok tools', out') →
  ∃ es, Forall2 (λ item e, tool_entry W item = Some e)
          (processing_order W [pair]) es ∧
        tools' = fold_left (λ acc kv, dict_set kv.1 kv.2 acc) es tools.
Proof.
  destruct pair as [ns dir]. unfold get_tools_cwl_dir.
  intros (? & out1 & _ & H)%bind_Ok.
  apply bind_Ok in H as (? & out2 & _ & H).
  apply for_each_file_Ok in H as (_ & es & Hes & ->).
  exists es. split; [ | done].
  unfold processing_order. simpl. by rewrite app_nil_r.
Qed.

Lemma for_each_dir_Ok validate skip file cwl_dirs : ∀ tools out tools' out',
  for_each (get_tools_cwl_dir W validate skip file) cwl_dirs tools out =
    (Ok tools', out') →
  ∃ es, Forall2 (λ item e, tool_entry W item = Some e)
          (processing_order W cwl_dirs) es ∧
        tools' = fold_left (λ acc kv, dict_set kv.1 kv.2 acc) es tools.
Proof.
  induction cwl_dirs as [ | pair cwl_dirs IH]; intros tools out tools' out'.
  - simpl. intros [-> _]%ret_Ok. exists []. by split.
  - simpl. intros (tools1 & out1 & Hstep & Hrest)%bind_Ok.
    apply get_tools_cwl_dir_Ok in Hstep as (es1 & Hes1 & ->).
    apply IH in Hrest as (es2 & Hes2 & ->).
    exists (es1 ++ es2). rewrite processing_order_cons, fold_left_app.
    split; [by apply Forall2_app | done].
Qed.

Lemma get_tools_cwl_Ok homedir validate skip out tools out' :
  get_tools_cwl W homedir validate skip out = (Ok tools, out') →
  ∃ cwl_dirs es,
    read_lines_pairs W (cwl_dirs_file_of W homedir) = Ok cwl_dirs ∧
    Forall2 (λ item e, tool_entry W item = Some e)
      (processing_order W cwl_dirs) es ∧
    tools = fold_left (λ acc kv, dict_set kv.1 kv.2 acc) es [].
Proof.
  unfold get_tools_cwl.
  intros (? & out1 & _ & H)%bind_Ok.
  apply bind_Ok in H as (cwl_dirs & out2 & [Hread ->]%lift_Ok & H).
  apply for_each_dir_Ok in H as (es & Hes & ->). by exists cwl_dirs, es.
Qed.

Lemma tool_entry_Some item e :
  tool_entry W item = Some e →
  e.1 = step_id_of W item ∧
  absolute_path e.2 = abspath W item.2 ∧
  ∃ loaded tool1,
    load_yaml_file W item.2 = Ok loaded ∧
    update loaded "stdout" (JStr (path_stem W item.2 +:+ ".out")) = Ok tool1 ∧
    update tool1 "stderr" (JStr (path_stem W item.2 +:+ ".err")) =
      Ok (definition e.2).
Proof.
  unfold tool_entry.
  destruct (load_yaml_file W item.2) as [loaded | ]; [ | done]. cbv zeta.
  destruct (update loaded _ _) as [tool1 | ] eqn:E1; [ | done].
  destruct (update tool1 _ _) as [tool2 | ] eqn:E2; [ | done].
  intros [= <-]. simpl. split; [done | ]. split; [done | ].
  exists loaded, tool1. done.
Qed.

(** The document of an entry: the loaded mapping with both keys assigned,
    or the loaded set with both names added. *)
Lemma tool_entry_document item e :
  tool_entry W item = Some e →
  ∃ loaded,
    load_yaml_file W item.2 = Ok loaded ∧
    ((∃ entries,
        loaded = Loaded (JDict entries) ∧
        definition e.2 =
        Loaded (JDict (dict_set "stderr" (JStr (path_stem W item.2 +:+ ".err"))
                         (dict_set "stdout"
                            (JStr (path_stem W item.2 +:+ ".out")) entries)))) ∨
     (∃ elements,
        loaded = LoadedSet elements ∧
        definition e.2 =
        LoadedSet (set_add "stderr" (set_add "stdout" elements)))).
Proof.
  intros (_ & _ & loaded & tool1 & Hload & H1 & H2)%tool_entry_Some.
  exists loaded. split; [exact Hload | ].
  destruct (update_twice _ _ _ _ _ H1 H2)
    as [(d & -> & ->) | (elements & -> & ->)]; [left | right]; eauto.
Qed.

(** C3: the flag reaches [validate_cwl] and stops there: the build does
    the same, prints the same and returns or raises the same whether
    [skip_schemas] is set or not, in every world, so the flag has no effect
    on the validation of any file. *)
Theorem skip_schemas_has_no_effect homedir validate_plugins out :
  get_tools_cwl W homedir validate_plugins true out =
  get_tools_cwl W homedir validate_plugins false out ∧
  ∀ cwl_path_str, validate_cwl W cwl_path_str true out =
                  validate_cwl W cwl_path_str false out.
Proof.
  split.
  - unfold get_tools_cwl, get_tools_cwl_dir, get_tools_cwl_file.
    reflexivity.
  - intros cwl_path_str. unfold validate_cwl. reflexivity.
Qed.



(** C8: the catalog never holds two entries of one StepId: each
    assignment of line 109 keeps the keys distinct, and so does the whole
    build; and the entry of a StepId is the Tool of the last file, in the
    order of the two loops, that has this StepId, whatever came before. *)
Theorem tool_catalog_last_write_wins :
  (∀ validate skip ns tools p out tools' out',
     dict_wf tools →
     get_tools_cwl_file W validate skip ns tools p out = (Ok tools', out') →
     dict_wf tools') ∧
  (∀ homedir validate skip out tools out',
     get_tools_cwl W homedir validate skip out = (Ok tools, out') →
     dict_wf tools ∧
     ∃ cwl_dirs,
       read_lines_pairs W (cwl_dirs_file_of W homedir) = Ok cwl_dirs ∧
       ∀ before item after,
         processing_order W cwl_dirs = before ++ item :: after →
         (∀ later, later ∈ after →
                   step_id_of W later ≠ step_id_of W item) →
         ∃ tool, tool_entry W item = Some (step_id_of W item, tool) ∧
                 absolute_path tool = abspath W item.2 ∧
                 dict_get (step_id_of W item) tools = Some tool).
Proof.
  split.
  - intros validate skip ns tools p out tools' out' Hwf
      [_ Hstep]%get_tools_cwl_file_Ok.
    destruct (str_contains "biobb_md" p); [by subst | ].
    destruct Hstep as (e & _ & ->). by apply dict_set_wf.
  - intros homedir validate skip out tools out'
      (cwl_dirs & es & Hread & Hes & ->)%get_tools_cwl_Ok.
    split; [apply assign_all_wf, NoDup_nil_2 | ].
    exists cwl_dirs. split; [exact Hread | ].
    intros before item after Hsplit Hlater. rewrite Hsplit in Hes.
    apply Forall2_app_inv_l in Hes as (es1 & es2' & _ & Hes & ->).
    apply Forall2_cons_inv_l in Hes as ([sid tool] & es2 & Hitem & Hes2 & ->).
    pose proof (tool_entry_Some _ _ Hitem) as (Hsid & Hpath & _).
    simpl in Hsid, Hpath. subst sid.
    exists tool. split; [exact Hitem | ]. split; [exact Hpath | ].
    apply assign_all_last.
    intros ([sid' tool'] & Hsid' & Hin)%list_elem_of_fmap. simpl in Hsid'.
    apply list_elem_of_lookup in Hin as [i Hi].
    destruct (Forall2_lookup_r _ _ _ _ _ Hes2 Hi) as (later & Hl & Hentry).
    apply tool_entry_Some in Hentry as (Hsid'' & _). simpl in Hsid''.
    apply (Hlater later); [by eapply list_elem_of_lookup_2 | congruence].
Qed.

(** C9: a registry line whose glob finds no file, and for which the
    directory for generated schemas can be created (lines 88 and 140, the
    one call between the glob and the warning that can raise), makes either
    build print the two warning lines, raises nothing, leaves the tool
    catalog as it was, gives the workflow catalog an empty dict merged into
    the namespace (no entry of the catalog changes), and the loop goes on
    with the following lines. *)
Theorem zero_match_warns_and_continues ns dir :
  (∀ validate skip file rest tools out,
     glob_recursive W (path_join W dir "**/*.cwl") = [] →
     mkdir_parents_exist_ok W "autogenerated/schemas/tools/" = Ok tt →
     get_tools_cwl_dir W validate skip file tools (ns, dir) out =
       (Ok tools,
        out ++ [warning_no_files W "cwl" dir file; warning_wrong_directory]) ∧
     for_each (get_tools_cwl_dir W validate skip file) ((ns, dir) :: rest)
       tools out =
     for_each (get_tools_cwl_dir W validate skip file) rest tools
       (out ++ [warning_no_files W "cwl" dir file; warning_wrong_directory])) ∧
  (∀ file rest all out,
     glob_recursive W (path_join W dir "**/*.yml") = [] →
     mkdir_parents_exist_ok W "autogenerated/schemas/workflows/" = Ok tt →
     yml_paths_dir W dir = [] ∧
     get_yml_paths_dir W file all (ns, dir) out =
       (Ok (dict_set ns (default [] (dict_get ns all)) all),
        out ++ [warning_no_files W "yml" dir file; warning_wrong_directory]) ∧
     (∀ ns' s, catalog_get ns' s
                 (dict_set ns (default [] (dict_get ns all)) all) =
               catalog_get ns' s all) ∧
     for_each (get_yml_paths_dir W file) ((ns, dir) :: rest) all out =
     for_each (get_yml_paths_dir W file) rest
       (dict_set ns (default [] (dict_get ns all)) all)
       (out ++ [warning_no_files W "yml" dir file; warning_wrong_directory])).
Proof.
  split.
  - intros validate skip file rest tools out Hglob Hmkdir.
    assert (Hstep : get_tools_cwl_dir W validate skip file tools (ns, dir) out =
      (Ok tools,
       out ++ [warning_no_files W "cwl" dir file; warning_wrong_directory])).
    { unfold get_tools_cwl_dir, bind, lift, print, ret.
      rewrite Hglob, Hmkdir. simpl. by rewrite <- app_assoc. }
    split; [exact Hstep | ].
    cbn [for_each]. unfold bind at 1. by rewrite Hstep.
  - intros file rest all out Hglob Hmkdir.
    assert (Hdict : yml_paths_dir W dir = []).
    { unfold yml_paths_dir. by rewrite Hglob. }
    assert (Hstep : get_yml_paths_dir W file all (ns, dir) out =
      (Ok (dict_set ns (default [] (dict_get ns all)) all),
       out ++ [warning_no_files W "yml" dir file; warning_wrong_directory])).
    { unfold get_yml_paths_dir, bind, lift, print, ret.
      rewrite Hglob, Hmkdir. simpl. by rewrite <- app_assoc. }
    split; [exact Hdict | ]. split; [exact Hstep | ]. split.
    + intros ns' s.
      pose proof (catalog_get_merge ns dir ns' s all) as Hmerge.
      rewrite Hdict in Hmerge. unfold dict_merge in Hmerge. simpl in Hmerge.
      rewrite Hmerge. by destruct (decide (ns = ns')).
    + cbn [for_each]. unfold bind at 1. by rewrite Hstep.
Qed.

End WithWorld.

(** C9, the case that the claim leaves out: the directory for generated
    schemas is created in every turn of the loop, before the number of
    files is looked at. Where that raises, a registry line without files
    makes both builds raise: no warning is printed, and the following line
    of the registry, which has files, is not processed. *)
Lemma zero_match_with_failing_mkdir_raises :
  read_lines_pairs Fixture.no_mkdir
    (cwl_dirs_file_of Fixture.no_mkdir "/home/u") =
    Ok [("ns", "empty"); ("other", "u")] ∧
  glob_recursive Fixture.no_mkdir
    (path_join Fixture.no_mkdir "empty" "**/*.cwl") = [] ∧
  glob_recursive Fixture.no_mkdir
    (path_join Fixture.no_mkdir "u" "**/*.cwl") = ["u/sort.cwl"] ∧
  get_tools_cwl Fixture.no_mkdir "/home/u" false false [] =
    (Raise (Exception "FileExistsError" "autogenerated/schemas/tools/"), []) ∧
  read_lines_pairs Fixture.no_mkdir
    (yml_dirs_file_of Fixture.no_mkdir "/home/u") =
    Ok [("ns", "empty"); ("other", "u")] ∧
  glob_recursive Fixture.no_mkdir
    (path_join Fixture.no_mkdir "empty" "**/*.yml") = [] ∧
  glob_recursive Fixture.no_mkdir
    (path_join Fixture.no_mkdir "u" "**/*.yml") = ["u/flow.yml"] ∧
  get_yml_paths Fixture.no_mkdir "/home/u" [] =
    (Raise (Exception "FileExistsError" "autogenerated/schemas/workflows/"),
     []).
Proof.
  repeat split; vm_compute; reflexivity.
Qed.

Lemma yml_catalog_entry_shortest_of_last_line_witness :
  ∃ before dir after p,
    [("ns", "d")] = before ++ ("ns", dir) :: after ∧
    p ∈ glob_recursive Fixture.three_files
          (path_join Fixture.three_files dir "**/*.yml") ∧
    "/work/d/foo.yml" = abspath Fixture.three_files p ∧
    (String.length p ≤ String.length "d/x/foo.yml")%nat.
Proof.
  destruct (yml_catalog_entry_shortest_of_last_line Fixture.three_files
              "/home/u" [] [("ns", [("foo", "/work/d/foo.yml")])] [])
    as (yml_dirs & Hread & _ & Hentry); [vm_compute; reflexivity | ].
  injection Hread as <-.
  destruct (Hentry "ns" "foo" "/work/d/foo.yml")
    as (before & dir & after & p & Hsplit & _ & Hp & _ & _ & Ha & Hmin);
    [vm_compute; reflexivity | ].
  exists before, dir, after, p. split; [exact Hsplit | ].
  split; [exact Hp | ]. split; [exact Ha | ].
  assert (Hdir : dir = "d").
  { destruct before as [ | x before]; [by injection Hsplit as <- | ].
    injection Hsplit as _ Hnil. by destruct before. }
  subst dir. apply Hmin; [ | reflexivity | reflexivity].
  vm_compute. do 2 apply list_elem_of_further. apply list_elem_of_here.
Defined.

Lemma yml_merge_keeps_other_entries_witness :
  ∃ all out,
    for_each (get_yml_paths_dir Fixture.split_namespace "yml_dirs.txt")
      [("ns", "b"); ("ns", "empty")] [("ns", [("foo", "/work/a/foo.yml")])]
      [] = (Ok all, out) ∧
    catalog_get "ns" "foo" all = Some "/work/a/foo.yml".
Proof.
  eexists _, _. split; [vm_compute; reflexivity | ].
  destruct (yml_merge_keeps_other_entries Fixture.split_namespace
              "yml_dirs.txt") as [_ Hframe].
  eapply eq_trans;
    [eapply (Hframe [("ns", "b"); ("ns", "empty")]
               [("ns", [("foo", "/work/a/foo.yml")])] [])
    | reflexivity]; [vm_compute; reflexivity | ].
  intros dir Hdir.
  apply elem_of_cons in Hdir as [[= ->] | Hdir]; [reflexivity | ].
  apply elem_of_cons in Hdir as [[= ->] | Hdir]; [reflexivity | ].
  by apply elem_of_nil in Hdir.
Defined.


Lemma tool_catalog_last_write_wins_witness :
  dict_wf Fixture.tools_catalog ∧
  ∃ tool, absolute_path tool = "/work/u/deep/sort.cwl" ∧
          dict_get (mkStepId "sort" "other") Fixture.tools_catalog = Some tool.
Proof.
  destruct (tool_catalog_last_write_wins Fixture.tools_world) as [_ Hbuild].
  destruct (Hbuild "/home/u" false false [] Fixture.tools_catalog
              Fixture.tools_stdout ltac:(vm_compute; reflexivity))
    as (Hwf & cwl_dirs & Hread & Hlast).
  split; [exact Hwf | ]. injection Hread as <-.
  destruct (Hlast [("ns", "t/align.cwl"); ("other", "u/sort.cwl")]
              ("other", "u/deep/sort.cwl") [])
    as (tool & _ & Hpath & Hget).
  - vm_compute; reflexivity.
  - by intros later ?%elem_of_nil.
  - exists tool. split; [exact Hpath | exact Hget].
Defined.

Lemma zero_match_warns_and_continues_witness :
  get_tools_cwl_dir Fixture.tools_world true false "cwl_dirs.txt"
    Fixture.tools_catalog ("ns", "empty") [] =
    (Ok Fixture.tools_catalog,
     [warning_no_files Fixture.tools_world "cwl" "empty" "cwl_dirs.txt";
      warning_wrong_directory]) ∧
  yml_paths_dir Fixture.split_namespace "empty" = [] ∧
  get_yml_paths_dir Fixture.split_namespace "yml_dirs.txt" []
    ("ns", "empty") [] =
    (Ok [("ns", [])],
     [warning_no_files Fixture.split_namespace "yml" "empty" "yml_dirs.txt";
      warning_wrong_directory]).
Proof.
  destruct (zero_match_warns_and_continues Fixture.tools_world "ns" "empty")
    as [Htools _].
  destruct (zero_match_warns_and_continues Fixture.split_namespace "ns"
              "empty") as [_ Hyml].
  destruct (Htools true false "cwl_dirs.txt" [] Fixture.tools_catalog [])
    as [Hstep _]; [reflexivity | reflexivity | ].
  destruct (Hyml "yml_dirs.txt" [] [] [])
    as (Hdict & Hstep' & _); [reflexivity | reflexivity | ].
  split; [exact Hstep | ]. split; [exact Hdict | exact Hstep'].
Defined.

End PluginsFacts.

(** ** preprocessjson.py: further properties of [remove_null_types] *)

Module PreprocessjsonMore.
Import Py Preprocessjson PreprocessjsonFacts.

Lemma size_list l : size (JList l) = S (foldr (λ t n, size t + n) 0 l).
Proof. reflexivity. Qed.

Lemma size_dict (d : list (string * json)) :
  size (JDict d) = S (foldr (λ kv n, size kv.2 + n) 0 d).
Proof. reflexivity. Qed.

Lemma depth_list l : depth (JList l) = S (foldr (λ t n, depth t `max` n) 0 l).
Proof. reflexivity. Qed.

Lemma depth_dict (d : list (string * json)) :
  depth (JDict d) = S (foldr (λ kv n, depth kv.2 `max` n) 0 d).
Proof. reflexivity. Qed.

Lemma size_pos t : (1 ≤ size t)%nat.
Proof. destruct t; simpl; lia. Qed.

Lemma depth_pos t : (1 ≤ depth t)%nat.
Proof. destruct t; simpl; lia. Qed.

(** A tree that the function leaves as it is has no [None] list item. *)
Lemma remove_null_types_fixed_no_None t :
  remove_null_types t = t → no_None_items t = true.
Proof.
  induction t as [ | b | z | f | s | l IH | d IH] using json_induction;
    try reflexivity.
  - rewrite remove_null_types_list, no_None_items_list. intros [= Heq].
    induction IH as [ | x l Hx _ IHl]; simpl in *; [done | ].
    destruct (negb (is_None (remove_null_types x))) eqn:E.
    + injection Heq as Heq1 Heq2. rewrite Heq1 in E.
      by rewrite E, (Hx Heq1), (IHl Heq2).
    + apply (f_equal length) in Heq. simpl in Heq.
      pose proof (List.filter_length_le (λ r, negb (is_None r))
                    (map remove_null_types l)) as Hle.
      rewrite length_map in Hle. lia.
  - rewrite remove_null_types_dict, no_None_items_dict.
    destruct (has_null_type d); [done | ]. intros [= Heq].
    induction IH as [ | [k v] d Hx _ IHd]; simpl in *; [done | ].
    injection Heq as Heq1 Heq2. by rewrite (Hx Heq1), (IHd Heq2).
Qed.

(** X1: the trees that [remove_null_types] returns unchanged are exactly
    those that hold neither a mapping whose "type" is [["null"]] nor a list
    with a [None] item. *)
Theorem remove_null_types_fixed_point_iff t :
  remove_null_types t = t ↔
  holds_null_type t = false ∧ no_None_items t = true.
Proof.
  split.
  - intros Heq. split; [ | by apply remove_null_types_fixed_no_None].
    destruct (holds_null_type t) eqn:E; [ | done].
    by apply remove_null_types_changes in E.
  - intros [Hnone Hclean]. by apply remove_null_types_fixed.
Qed.

(** X2: no list of the result has [None] as an item, at any depth,
    whatever the argument held. *)
Theorem remove_null_types_result_lists_without_None t :
  no_None_items (remove_null_types t) = true ∧
  ∀ l, remove_null_types t = JList l → JNull ∉ l.
Proof.
  split; [apply remove_null_types_no_None_items | ].
  intros l Hl.
  pose proof (remove_null_types_no_None_items t) as Hclean.
  rewrite Hl, no_None_items_list in Hclean.
  intros Hin. apply list_elem_of_In in Hin.
  by apply (proj1 (forallb_forall _ _) Hclean) in Hin.
Qed.

(** X3: the result is [None] only for [None] itself and for a mapping
    whose "type" is [["null"]]; a list always gives a list, never longer
    than the argument, even when every item is removed. *)
Theorem remove_null_types_None_iff :
  (∀ t, remove_null_types t = JNull ↔
        t = JNull ∨ ∃ d, t = JDict d ∧ has_null_type d = true) ∧
  (∀ l, ∃ l', remove_null_types (JList l) = JList l' ∧
              (length l' ≤ length l)%nat).
Proof.
  split; [split | ].
  - destruct t as [ | | | | | l | d]; try done; [by left | ].
    rewrite remove_null_types_dict.
    destruct (has_null_type d) eqn:E; [ | done]. right. eauto.
  - intros [-> | (d & -> & Hd)]; [done | ].
    by rewrite remove_null_types_dict, Hd.
  - intros l. rewrite remove_null_types_list. eexists. split; [done | ].
    etrans; [apply List.filter_length_le | ]. by rewrite length_map.
Qed.

(** X4: the result is never larger and never deeper than the argument. *)
Theorem remove_null_types_not_larger t :
  (size (remove_null_types t) ≤ size t)%nat ∧
  (depth (remove_null_types t) ≤ depth t)%nat.
Proof.
  induction t as [ | b | z | f | s | l IH | d IH] using json_induction;
    try (split; reflexivity).
  - rewrite remove_null_types_list, !size_list, !depth_list.
    enough ((foldr (λ t n, size t + n) 0
               (List.filter (λ r, negb (is_None r))
                  (map remove_null_types l)) ≤
             foldr (λ t n, size t + n) 0 l)%nat ∧
            (foldr (λ t n, depth t `max` n) 0
               (List.filter (λ r, negb (is_None r))
                  (map remove_null_types l)) ≤
             foldr (λ t n, depth t `max` n) 0 l)%nat) by lia.
    induction IH as [ | x l [Hx1 Hx2] _ IHl]; simpl; [done | ].
    destruct (negb (is_None (remove_null_types x))); simpl; lia.
  - rewrite remove_null_types_dict.
    destruct (has_null_type d).
    { split; [apply size_pos | apply depth_pos]. }
    rewrite !size_dict, !depth_dict.
    enough ((foldr (λ kv n, size kv.2 + n) 0
               (map (λ kv, (kv.1, remove_null_types kv.2)) d) ≤
             foldr (λ kv n, size kv.2 + n) 0 d)%nat ∧
            (foldr (λ kv n, depth kv.2 `max` n) 0
               (map (λ kv, (kv.1, remove_null_types kv.2)) d) ≤
             foldr (λ kv n, depth kv.2 `max` n) 0 d)%nat) by lia.
    induction IH as [ | [k v] d [Hx1 Hx2] _ IHd]; simpl in *; [done | ].
    lia.
Qed.

End PreprocessjsonMore.

(** ** preprocessjson.py: the result shares no container with the
    argument *)

Module StoreMore.
Import Py Preprocessjson PreprocessjsonFacts StoreFacts.

(** Every container of [r] in [h'] is new with respect to [h]. *)
Local Abbreviation separate h h' r :=
  (∀ l, reaches h' r l → h !! l = None ∧ is_Some (h' !! l)).

(** In a larger store a value whose containers all exist reaches nothing
    more. *)
Lemma reaches_in_smaller (h1 h2 : heap) v l :
  h1 ⊆ h2 → reaches h2 v l →
  (∀ l', reaches h1 v l' → is_Some (h1 !! l')) →
  reaches h1 v l.
Proof.
  intros Hsub Hr.
  induction Hr as [l | l0 vs v l Hl0 Hin Hr IH | l0 es e l Hl0 Hin Hr IH];
    intros Hclosed.
  - constructor.
  - destruct (Hclosed l0 (reaches_here _ _)) as [o Ho].
    pose proof (lookup_weaken _ _ _ _ Ho Hsub) as Ho'.
    rewrite Hl0 in Ho'. injection Ho' as <-.
    eapply reaches_item; [exact Ho | exact Hin | ]. apply IH.
    intros l' Hr'. apply Hclosed. by eapply reaches_item.
  - destruct (Hclosed l0 (reaches_here _ _)) as [o Ho].
    pose proof (lookup_weaken _ _ _ _ Ho Hsub) as Ho'.
    rewrite Hl0 in Ho'. injection Ho' as <-.
    eapply reaches_value; [exact Ho | exact Hin | ]. apply IH.
    intros l' Hr'. apply Hclosed. by eapply reaches_value.
Qed.

Lemma separate_weaken (h0 h1 h2 h3 : heap) r :
  separate h1 h2 r → h0 ⊆ h1 → h2 ⊆ h3 → separate h0 h3 r.
Proof.
  intros Hsep H01 H23 l Hr.
  apply (reaches_in_smaller h2 h3) in Hr; [ | done | ].
  - destruct (Hsep l Hr) as [Hnone Hsome]. split.
    + by eapply lookup_weaken_None.
    + by eapply lookup_weaken_is_Some.
  - intros l' Hr'. by apply Hsep.
Qed.

Section Comprehensions.
Variable f : pyval → HM pyval.
Hypothesis f_separate : ∀ v h r h',
  f v h = Some (r, h') → h ⊆ h' ∧ separate h h' r.

Lemma list_comprehension_separate items : ∀ h rs h',
  list_comprehension f items h = Some (rs, h') →
  h ⊆ h' ∧ Forall (λ r, separate h h' r) rs.
Proof.
  induction items as [ | item items IH]; intros h rs h'; simpl.
  - intros [= <- <-]. by split.
  - intros (c & h1 & Hc & Hrest)%hbind_Some.
    apply f_separate in Hc as [Hh1 _].
    destruct (negb (is_VNone c)).
    + apply hbind_Some in Hrest as (r & h2 & Hr & Hrest).
      apply hbind_Some in Hrest as (rest' & h3 & Hrest & [= <- <-]).
      apply f_separate in Hr as [Hh2 Hsep].
      apply IH in Hrest as [Hh3 Hseps].
      split; [by etrans; [ | etrans] | ]. constructor.
      * intros l Hl. by eapply (separate_weaken h h1 h2 h3).
      * eapply Forall_impl; [exact Hseps | ]. simpl. intros r' Hr' l Hl.
        eapply (separate_weaken h h2 h3 h3); [exact Hr' | | done | exact Hl].
        by etrans.
    + apply IH in Hrest as [Hh3 Hseps]. split; [by etrans | ].
      eapply Forall_impl; [exact Hseps | ]. simpl. intros r' Hr' l Hl.
      by eapply (separate_weaken h h1 h' h').
Qed.

Lemma dict_comprehension_separate es : ∀ h es' h',
  dict_comprehension f es h = Some (es', h') →
  h ⊆ h' ∧ Forall (λ e, separate h h' e.2) es'.
Proof.
  induction es as [ | [k v] es IH]; intros h es' h'; simpl.
  - intros [= <- <-]. by split.
  - intros (v' & h1 & Hv & Hrest)%hbind_Some.
    apply hbind_Some in Hrest as (rest' & h2 & Hrest & [= <- <-]).
    apply f_separate in Hv as [Hh1 Hsep].
    apply IH in Hrest as [Hh2 Hseps].
    split; [by etrans | ]. constructor.
    + simpl. intros l Hl. by eapply (separate_weaken h h h1 h2).
    + eapply Forall_impl; [exact Hseps | ]. simpl. intros e He l Hl.
      by eapply (separate_weaken h h1 h2 h2).
Qed.
End Comprehensions.

Lemma remove_null_types_h_separate fuel : ∀ schema h r h',
  remove_null_types_h fuel schema h = Some (r, h') →
  h ⊆ h' ∧ separate h h' r.
Proof.
  induction fuel as [ | fuel IH]; intros schema h r h'; simpl; [done | ].
  destruct schema as [ | b | z | f | s | l0];
    try (intros [= <- <-]; split; [done | ]; intros l Hl; by inversion Hl).
  destruct (h !! l0) as [[items | d] | ] eqn:Hl0; [ | | done].
  - intros (items' & h1 & Hitems & Halloc)%hbind_Some.
    apply (list_comprehension_separate _ IH) in Hitems as [Hh1 Hseps].
    pose proof (alloc_extends _ _ _ _ Halloc) as Hh2.
    apply alloc_fresh in Halloc as (l' & -> & Hfresh & ->).
    split; [by etrans | ]. intros l Hl.
    inversion Hl as [ | ? vs v ? Hvs Hin Hr | ? es e ? Hes]; subst.
    + split; [by eapply lookup_weaken_None | by rewrite lookup_insert_eq].
    + rewrite lookup_insert_eq in Hvs. injection Hvs as <-.
      pose proof (proj1 (Forall_forall _ _) Hseps _ Hin) as Hv.
      simpl in Hv.
      exact (separate_weaken h h h1 _ v Hv (reflexivity h) Hh2 l Hr).
    + by rewrite lookup_insert_eq in Hes.
  - destruct (has_null_type_h h d).
    { intros [= <- <-]. split; [done | ]. intros l Hl. by inversion Hl. }
    intros (d' & h1 & Hd & Halloc)%hbind_Some.
    apply (dict_comprehension_separate _ IH) in Hd as [Hh1 Hseps].
    pose proof (alloc_extends _ _ _ _ Halloc) as Hh2.
    apply alloc_fresh in Halloc as (l' & -> & Hfresh & ->).
    split; [by etrans | ]. intros l Hl.
    inversion Hl as [ | ? vs v ? Hvs | ? es e ? Hes Hin Hr]; subst.
    + split; [by eapply lookup_weaken_None | by rewrite lookup_insert_eq].
    + by rewrite lookup_insert_eq in Hvs.
    + rewrite lookup_insert_eq in Hes. injection Hes as <-.
      pose proof (proj1 (Forall_forall _ _) Hseps _ Hin) as Hv.
      simpl in Hv.
      exact (separate_weaken h h h1 _ e.2 Hv (reflexivity h) Hh2 l Hr).
Qed.

(** X5: the result shares no container with the argument: every list and
    dict that the returned value holds, at any depth, is an object created
    by the call, so changing the result afterwards cannot change the
    argument. *)
Theorem remove_null_types_h_result_is_separate fuel schema h r h' :
  remove_null_types_h fuel schema h = Some (r, h') →
  ∀ l, reaches h' r l → h !! l = None ∧ is_Some (h' !! l).
Proof. intros Hrun. by eapply remove_null_types_h_separate. Qed.

Lemma remove_null_types_h_result_is_separate_witness :
  ∃ r h', remove_null_types_h 3 (VRef 1%positive) Fixture.example_store =
            Some (r, h') ∧
          ∀ l, reaches h' r l → Fixture.example_store !! l = None.
Proof.
  destruct (remove_null_types_h 3 (VRef 1%positive) Fixture.example_store)
    as [[r h'] | ] eqn:Hrun; [ | by vm_compute in Hrun].
  exists r, h'. split; [reflexivity | ]. intros l Hl.
  by destruct (remove_null_types_h_result_is_separate _ _ _ _ _ Hrun l Hl).
Defined.

End StoreMore.

(** ** src/wic/plugins.py: the logging filters *)

Module FilterFacts.
Import Py Plugins.

Lemma app_cons c s1 s2 : String c s1 +:+ s2 = String c (s1 +:+ s2).
Proof. reflexivity. Qed.

Lemma app_nil_r s : s +:+ "" = s.
Proof. induction s as [ | c s IH]; [done | by rewrite app_cons, IH]. Qed.

Lemma app_assoc s1 s2 s3 : (s1 +:+ s2) +:+ s3 = s1 +:+ s2 +:+ s3.
Proof. induction s1 as [ | c s1 IH]; [done | by rewrite !app_cons, IH]. Qed.

Lemma app_eq_nil s1 s2 : s1 +:+ s2 = "" → s1 = "" ∧ s2 = "".
Proof. destruct s1; [done | by rewrite app_cons]. Qed.

Lemma app_eq_cons s1 s2 c s :
  s1 +:+ s2 = String c s →
  (s1 = "" ∧ s2 = String c s) ∨ ∃ s1', s1 = String c s1' ∧ s = s1' +:+ s2.
Proof.
  destruct s1 as [ | c' s1]; [by left | ].
  rewrite app_cons. intros [= -> <-]. right. eauto.
Qed.

Lemma endswith_spec s suffix :
  endswith s suffix = true ↔ ∃ pre, s = pre +:+ suffix.
Proof.
  induction s as [ | c s IH]; cbn [endswith].
  - rewrite orb_false_r, String.eqb_eq. split.
    + intros <-. by exists "".
    + intros [pre Hpre]. symmetry in Hpre.
      by apply app_eq_nil in Hpre as [_ ->].
  - rewrite orb_true_iff, String.eqb_eq, IH. split.
    + intros [<- | [pre ->]]; [by exists "" | by exists (String c pre)].
    + intros [[ | c' pre] Hpre]; [by left | ].
      rewrite app_cons in Hpre. injection Hpre as <- ->. right. eauto.
Qed.

(** *** The matcher decides the matches of a prefix *)

Lemma nullable_spec r : nullable r = true ↔ matches r "".
Proof.
  split.
  - induction r as [ | | c | | r1 IH1 r2 IH2 | r1 IH1 r2 IH2 | r IH];
      simpl; try done.
    + intros _. constructor.
    + intros [H1 H2]%andb_prop.
      change "" with ("" +:+ ""). constructor; auto.
    + intros [H | H]%orb_prop;
        [apply matches_alt_l | apply matches_alt_r]; auto.
    + intros _. constructor.
  - intros H. remember "" as s eqn:Hs.
    induction H as [ | c | c Hc | r1 r2 s1 s2 H1 IH1 H2 IH2
                   | r1 r2 s H IH | r1 r2 s H IH | r | r s1 s2 H1 IH1 H2 IH2];
      simpl; try done.
    + apply app_eq_nil in Hs as [-> ->]. by rewrite IH1, IH2.
    + by rewrite IH.
    + rewrite IH by done. apply orb_true_r.
Qed.

Lemma deriv_sound c r : ∀ s, matches (deriv c r) s → matches r (String c s).
Proof.
  induction r as [ | | c' | | r1 IH1 r2 IH2 | r1 IH1 r2 IH2 | r IH];
    simpl; intros s H.
  - inversion H.
  - inversion H.
  - destruct (Ascii.eqb c c') eqn:E; [ | inversion H].
    apply Ascii.eqb_eq in E as ->. inversion H; subst. constructor.
  - destruct (Ascii.eqb c newline) eqn:E; [inversion H | ].
    apply Ascii.eqb_neq in E. inversion H; subst. by constructor.
  - destruct (nullable r1) eqn:E.
    + inversion H as [ | | | | ? ? ? Hl | ? ? ? Hr | | ]; subst.
      * inversion Hl as [ | | | ? ? s1 s2 H1 H2 | | | | ]; subst.
        rewrite <- app_cons. constructor; auto.
      * change (String c s) with ("" +:+ String c s).
        constructor; [by apply nullable_spec | auto].
    + inversion H as [ | | | ? ? s1 s2 H1 H2 | | | | ]; subst.
      rewrite <- app_cons. constructor; auto.
  - inversion H; subst; [apply matches_alt_l | apply matches_alt_r]; auto.
  - inversion H as [ | | | ? ? s1 s2 H1 H2 | | | | ]; subst.
    rewrite <- app_cons. constructor; auto.
Qed.

Lemma deriv_complete c r x :
  matches r x → ∀ s, x = String c s → matches (deriv c r) s.
Proof.
  induction 1 as [ | c' | c' Hc | r1 r2 s1 s2 H1 IH1 H2 IH2
                 | r1 r2 s' H IH | r1 r2 s' H IH | r
                 | r s1 s2 H1 IH1 H2 IH2]; intros s Hs; simpl.
  - done.
  - injection Hs as -> <-. rewrite Ascii.eqb_refl. constructor.
  - injection Hs as -> <-.
    apply Ascii.eqb_neq in Hc. rewrite Hc. constructor.
  - apply app_eq_cons in Hs as [[-> ->] | (s1' & -> & ->)].
    + apply nullable_spec in H1. rewrite H1. apply matches_alt_r. auto.
    + destruct (nullable r1); [apply matches_alt_l | ]; constructor; auto.
  - apply matches_alt_l. auto.
  - apply matches_alt_r. auto.
  - done.
  - apply app_eq_cons in Hs as [[-> ->] | (s1' & -> & ->)].
    + by apply IH2.
    + constructor; auto.
Qed.

Lemma re_match_spec s : ∀ r,
  re_match r s = true ↔ ∃ pre rest, s = pre +:+ rest ∧ matches r pre.
Proof.
  induction s as [ | c s IH]; intros r; cbn [re_match].
  - rewrite orb_false_r, nullable_spec. split.
    + intros H. by exists "", "".
    + intros (pre & rest & Hs & H). symmetry in Hs.
      by apply app_eq_nil in Hs as [-> _].
  - rewrite orb_true_iff, nullable_spec, IH. split.
    + intros [H | (pre & rest & -> & H)].
      * by exists "", (String c s).
      * exists (String c pre), rest. split; [done | by apply deriv_sound].
    + intros ([ | c' pre] & rest & Hs & H); [by left | ].
      rewrite app_cons in Hs. injection Hs as <- ->. right.
      exists pre, rest. split; [done | by eapply deriv_complete].
Qed.

(** *** The pattern of line 31 *)

Lemma matches_lits s r x :
  matches (lits s r) x ↔ ∃ y, x = s +:+ y ∧ matches r y.
Proof.
  revert x. induction s as [ | c s IH]; intros x; simpl.
  - split; [intros H; by exists x | by intros (y & -> & H)].
  - split.
    + intros H. inversion H as [ | | | ? ? s1 s2 H1 H2 | | | | ]; subst.
      inversion H1; subst. apply IH in H2 as (y & -> & H2). by exists y.
    + intros (y & -> & H). rewrite app_cons.
      change (String c (s +:+ y)) with (String c "" +:+ (s +:+ y)).
      constructor; [constructor | ]. apply IH. by exists y.
Qed.

Lemma matches_star_dot a : matches (Star Dot) a ↔ no_newline a = true.
Proof.
  split.
  - intros H. remember (Star Dot) as r eqn:Hr.
    induction H as [ | | | | | | r' | r' s1 s2 H1 _ H2 IH2]; try done.
    injection Hr as ->. inversion H1 as [ | | c Hc | | | | | ]; subst.
    rewrite app_cons. simpl. apply Ascii.eqb_neq in Hc. rewrite Hc. simpl.
    by apply IH2.
  - induction a as [ | c a IH]; simpl; [intros _; constructor | ].
    intros [Hc Ha]%andb_prop. apply negb_true_iff, Ascii.eqb_neq in Hc.
    change (String c a) with (String c "" +:+ a).
    constructor; [by constructor | auto].
Qed.

Lemma matches_cat r1 r2 x :
  matches (Cat r1 r2) x ↔
  ∃ s1 s2, x = s1 +:+ s2 ∧ matches r1 s1 ∧ matches r2 s2.
Proof.
  split.
  - intros H. inversion H; subst. eauto.
  - intros (s1 & s2 & -> & H1 & H2). by constructor.
Qed.

Lemma compile_resolved :
  compile "Resolved '.*' to '.*'" =
  lits "Resolved '"
    (Cat (Star Dot) (lits "' to '" (Cat (Star Dot) (lits "'" Eps)))).
Proof. reflexivity. Qed.

(** X6: [NoPreviouslyDefinedFilter] drops exactly the records whose
    message ends with "previously defined". *)
Theorem NoPreviouslyDefinedFilter_drops message :
  NoPreviouslyDefinedFilter_filter message = false ↔
  ∃ pre, message = pre +:+ "previously defined".
Proof.
  unfold NoPreviouslyDefinedFilter_filter.
  rewrite negb_false_iff. apply endswith_spec.
Qed.

(** X7: [NoResolvedFilter] drops exactly the records whose message begins
    with [Resolved 'a' to 'b'] for some [a] and [b] on one line (either may
    be empty or hold quotes); any text may follow. *)
Theorem NoResolvedFilter_drops message :
  NoResolvedFilter_filter message = false ↔
  ∃ a b rest,
    message = "Resolved '" +:+ a +:+ "' to '" +:+ b +:+ "'" +:+ rest ∧
    no_newline a = true ∧ no_newline b = true.
Proof.
  unfold NoResolvedFilter_filter. cbv zeta.
  rewrite negb_false_iff, re_match_spec, compile_resolved. split.
  - intros (pre & rest & -> & H).
    apply matches_lits in H as (y1 & -> & H).
    apply matches_cat in H as (a & y2 & -> & Ha & H).
    apply matches_lits in H as (y3 & -> & H).
    apply matches_cat in H as (b & y4 & -> & Hb & H).
    apply matches_lits in H as (y5 & -> & H). inversion H; subst.
    apply matches_star_dot in Ha, Hb. exists a, b, rest.
    split; [ | done]. by rewrite !app_assoc.
  - intros (a & b & rest & -> & Ha & Hb).
    exists ("Resolved '" +:+ a +:+ "' to '" +:+ b +:+ "'"), rest. split.
    { by rewrite !app_assoc. }
    apply matches_lits. eexists. split; [done | ].
    apply matches_cat. eexists a, _. split; [done | ].
    split; [by apply matches_star_dot | ].
    apply matches_lits. eexists. split; [done | ].
    apply matches_cat. exists b, "'". split; [done | ].
    split; [by apply matches_star_dot | ].
    apply matches_lits. exists "". split; [done | constructor].
Qed.

End FilterFacts.

(** ** src/wic/plugins.py: further properties of the two builders *)

Module PluginsMore.
Import Py Preprocessjson Plugins PyFacts PluginsFacts.

Section WithWorld.
Context (W : World).

(** *** The keys of the workflow catalog *)

Lemma for_each_yml_keys file lines : ∀ all out all' out',
  for_each (get_yml_paths_dir W file) lines all out = (Ok all', out') →
  (∀ ns, is_Some (dict_get ns all') ↔
         is_Some (dict_get ns all) ∨ ns ∈ lines.*1) ∧
  (dict_wf all → dict_wf all') ∧
  ((∀ ns d, dict_get ns all = Some d → dict_wf d) →
   ∀ ns d, dict_get ns all' = Some d → dict_wf d).
Proof.
  induction lines as [ | [ns0 dir0] lines IH]; intros all out all' out'.
  - simpl. intros [-> _]%ret_Ok. split; [ | by split].
    intros ns. rewrite elem_of_nil. tauto.
  - simpl. intros (all1 & out1 & Hstep & Hrest)%bind_Ok.
    apply get_yml_paths_dir_Ok in Hstep. subst all1.
    apply IH in Hrest as (Hkeys & Hwf & Hwfs). split; [ | split].
    + intros ns. rewrite Hkeys, dict_get_set, elem_of_cons.
      destruct (decide (ns0 = ns)) as [-> | Hne].
      * split; [by right; left | by intros _; left].
      * split; [tauto | ]. intros [? | [? | ?]]; [tauto | congruence | tauto].
    + intros Hall. by apply Hwf, dict_set_wf.
    + intros Hall. apply Hwfs. intros ns d. rewrite dict_get_set.
      destruct (decide (ns0 = ns)) as [-> | Hne]; [ | by apply Hall].
      intros [= <-]. apply assign_all_wf.
      destruct (dict_get ns all) as [d0 | ] eqn:E; simpl.
      * by eapply Hall.
      * apply NoDup_nil_2.
Qed.

(** X8: the workflow catalog has a key for every namespace of the
    registry, also for one whose directories hold no file, and no other
    key; neither the catalog nor the dict of a namespace holds a key
    twice. *)
Theorem yml_catalog_namespaces homedir out all out' :
  get_yml_paths W homedir out = (Ok all, out') →
  ∃ yml_dirs,
    read_lines_pairs W (yml_dirs_file_of W homedir) = Ok yml_dirs ∧
    (∀ ns, is_Some (dict_get ns all) ↔ ns ∈ yml_dirs.*1) ∧
    dict_wf all ∧
    ∀ ns d, dict_get ns all = Some d → dict_wf d.
Proof.
  intros (yml_dirs & out1 & Hread & Hloop)%get_yml_paths_Ok.
  apply for_each_yml_keys in Hloop as (Hkeys & Hwf & Hwfs).
  exists yml_dirs. split; [exact Hread | ]. split; [ | split].
  - intros ns. rewrite Hkeys. simpl. split; [ | by right].
    intros [[? [=]] | ?]; done.
  - apply Hwf, NoDup_nil_2.
  - apply Hwfs. by intros ns d [=].
Qed.

(** *** What the builders print *)

Lemma get_tools_cwl_dir_out validate skip file tools pair out tools' out' :
  get_tools_cwl_dir W validate skip file tools pair out = (Ok tools', out') →
  out' = out ++
    match glob_recursive W (path_join W pair.2 "**/*.cwl") with
    | [] => [warning_no_files W "cwl" pair.2 file; warning_wrong_directory]
    | _ :: _ => []
    end.
Proof.
  destruct pair as [ns dir]. unfold get_tools_cwl_dir. simpl.
  intros ([] & out1 & [_ ->]%lift_Ok & H)%bind_Ok.
  apply bind_Ok in H as ([] & out2 & Hwarn & H).
  apply for_each_file_Ok in H as [-> _].
  destruct (glob_recursive W (path_join W dir "**/*.cwl")); simpl in Hwarn.
  - apply bind_Ok in Hwarn as ([] & out3 & [= <-] & [= <-]).
    by rewrite <- app_assoc.
  - apply ret_Ok in Hwarn as [_ ->]. by rewrite app_nil_r.
Qed.

Lemma for_each_dir_out validate skip file cwl_dirs : ∀ tools out tools' out',
  for_each (get_tools_cwl_dir W validate skip file) cwl_dirs tools out =
    (Ok tools', out') →
  out' = out ++
    flat_map (λ pair,
       match glob_recursive W (path_join W pair.2 "**/*.cwl") with
       | [] => [warning_no_files W "cwl" pair.2 file; warning_wrong_directory]
       | _ :: _ => []
       end) cwl_dirs.
Proof.
  induction cwl_dirs as [ | pair cwl_dirs IH]; intros tools out tools' out'.
  - simpl. intros [_ ->]%ret_Ok. by rewrite app_nil_r.
  - simpl. intros (tools1 & out1 & Hstep & Hrest)%bind_Ok.
    apply get_tools_cwl_dir_out in Hstep. apply IH in Hrest.
    subst. by rewrite <- app_assoc.
Qed.

(** X9: a tool build that returns has printed the two warning lines for
    each registry line whose glob found no file, in the order of the
    registry, and nothing else; so a directory that holds only files of the
    deprecated package gives no warning although it adds no tool. *)
Theorem get_tools_cwl_prints_only_warnings homedir validate skip out tools
    out' :
  get_tools_cwl W homedir validate skip out = (Ok tools, out') →
  ∃ cwl_dirs,
    read_lines_pairs W (cwl_dirs_file_of W homedir) = Ok cwl_dirs ∧
    out' = out ++
      flat_map (λ pair,
         match glob_recursive W (path_join W pair.2 "**/*.cwl") with
         | [] => [warning_no_files W "cwl" pair.2 (cwl_dirs_file_of W homedir);
                  warning_wrong_directory]
         | _ :: _ => []
         end) cwl_dirs.
Proof.
  unfold get_tools_cwl.
  intros ([] & out1 & [_ ->]%lift_Ok & H)%bind_Ok.
  apply bind_Ok in H as (cwl_dirs & out2 & [Hread ->]%lift_Ok & H).
  apply for_each_dir_out in H. by exists cwl_dirs.
Qed.

Lemma get_yml_paths_dir_out file all pair out all' out' :
  get_yml_paths_dir W file all pair out = (Ok all', out') →
  out' = out ++
    match glob_recursive W (path_join W pair.2 "**/*.yml") with
    | [] => [warning_no_files W "yml" pair.2 file; warning_wrong_directory]
    | _ :: _ => []
    end.
Proof.
  destruct pair as [ns dir]. unfold get_yml_paths_dir. simpl.
  intros ([] & out1 & [_ ->]%lift_Ok & H)%bind_Ok.
  apply bind_Ok in H as ([] & out2 & Hwarn & [_ ->]%ret_Ok).
  pose proof (Permutation_length
                (sorted_len_reverse_perm
                   (glob_recursive W (path_join W dir "**/*.yml")))) as Hlen.
  rewrite Hlen in Hwarn.
  destruct (glob_recursive W (path_join W dir "**/*.yml")) as [ | q g];
    simpl in Hwarn.
  - apply bind_Ok in Hwarn as ([] & out3 & [= <-] & [= <-]).
    by rewrite <- app_assoc.
  - apply ret_Ok in Hwarn as [_ ->]. by rewrite app_nil_r.
Qed.

Lemma for_each_yml_out file lines : ∀ all out all' out',
  for_each (get_yml_paths_dir W file) lines all out = (Ok all', out') →
  out' = out ++
    flat_map (λ pair,
       match glob_recursive W (path_join W pair.2 "**/*.yml") with
       | [] => [warning_no_files W "yml" pair.2 file; warning_wrong_directory]
       | _ :: _ => []
       end) lines.
Proof.
  induction lines as [ | pair lines IH]; intros all out all' out'.
  - simpl. intros [_ ->]%ret_Ok. by rewrite app_nil_r.
  - simpl. intros (all1 & out1 & Hstep & Hrest)%bind_Ok.
    apply get_yml_paths_dir_out in Hstep. apply IH in Hrest.
    subst. by rewrite <- app_assoc.
Qed.

(** X10: a workflow build that returns has printed the two warning lines
    for each registry line whose glob found no file, in the order of the
    registry, and nothing else; the test is made before the [_inputs] files
    are left out, so a directory that holds only such files gives no
    warning although its dict is empty. *)
Theorem get_yml_paths_prints_only_warnings homedir out all out' :
  get_yml_paths W homedir out = (Ok all, out') →
  ∃ yml_dirs,
    read_lines_pairs W (yml_dirs_file_of W homedir) = Ok yml_dirs ∧
    out' = out ++
      flat_map (λ pair,
         match glob_recursive W (path_join W pair.2 "**/*.yml") with
         | [] => [warning_no_files W "yml" pair.2 (yml_dirs_file_of W homedir);
                  warning_wrong_directory]
         | _ :: _ => []
         end) yml_dirs.
Proof.
  unfold get_yml_paths.
  intros ([] & out1 & [_ ->]%lift_Ok & H)%bind_Ok.
  apply bind_Ok in H as (yml_dirs & out2 & [Hread ->]%lift_Ok & H).
  apply for_each_yml_out in H. by exists yml_dirs.
Qed.

(** *** Which tools the catalog holds *)

Lemma elem_of_processing_order item cwl_dirs :
  item ∈ processing_order W cwl_dirs ↔
  str_contains "biobb_md" item.2 = false ∧
  ∃ dir, (item.1, dir) ∈ cwl_dirs ∧
         item.2 ∈ glob_recursive W (path_join W dir "**/*.cwl").
Proof.
  unfold processing_order.
  rewrite list_elem_of_In, filter_In, in_flat_map, negb_true_iff. split.
  - intros [([ns dir] & Hpair & Hitem) Hdep]. split; [done | ].
    apply in_map_iff in Hitem as (p & <- & Hp). simpl in *.
    exists dir. by rewrite !list_elem_of_In.
  - intros [Hdep (dir & Hpair & Hp)]. split; [ | done].
    exists (item.1, dir). split; [by apply list_elem_of_In | ].
    apply in_map_iff. exists item.2. simpl.
    split; [by destruct item | by apply list_elem_of_In].
Qed.

(** X11: the tool catalog that the build returns has an entry for exactly
    the StepIds (stem, namespace) of the files that a registry line of that
    namespace finds and whose path does not contain [biobb_md]; the path of
    an entry is the absolute path of such a file, so no file of the
    deprecated package is ever in the catalog. *)
Theorem tool_catalog_holds_exactly_processed_files homedir validate skip out
    tools out' :
  get_tools_cwl W homedir validate skip out = (Ok tools, out') →
  ∃ cwl_dirs,
    read_lines_pairs W (cwl_dirs_file_of W homedir) = Ok cwl_dirs ∧
    (∀ sid, is_Some (dict_get sid tools) ↔
       ∃ dir p, (namespace sid, dir) ∈ cwl_dirs ∧
                p ∈ glob_recursive W (path_join W dir "**/*.cwl") ∧
                str_contains "biobb_md" p = false ∧
                name sid = path_stem W p) ∧
    (∀ sid tool, dict_get sid tools = Some tool →
       ∃ dir p, (namespace sid, dir) ∈ cwl_dirs ∧
                p ∈ glob_recursive W (path_join W dir "**/*.cwl") ∧
                str_contains "biobb_md" p = false ∧
                name sid = path_stem W p ∧
                absolute_path tool = abspath W p).
Proof.
  intros (cwl_dirs & es & Hread & Hes & ->)%get_tools_cwl_Ok.
  exists cwl_dirs. split; [exact Hread | ].
  assert (Hprov : ∀ sid tool,
    dict_get sid (fold_left (λ acc kv, dict_set kv.1 kv.2 acc) es []) =
      Some tool →
    ∃ dir p, (namespace sid, dir) ∈ cwl_dirs ∧
             p ∈ glob_recursive W (path_join W dir "**/*.cwl") ∧
             str_contains "biobb_md" p = false ∧
             name sid = path_stem W p ∧
             absolute_path tool = abspath W p).
  { intros sid tool Hget.
    apply assign_all_Some in Hget
      as [(l1 & l2 & -> & _) | [_ Hnil]]; [ | done].
    assert (Hin : (sid, tool) ∈ l1 ++ (sid, tool) :: l2).
    { apply elem_of_app. right. apply list_elem_of_here. }
    apply list_elem_of_lookup in Hin as [i Hi].
    destruct (Forall2_lookup_r _ _ _ _ _ Hes Hi) as (item & Hitem & Hentry).
    apply list_elem_of_lookup_2, elem_of_processing_order in Hitem
      as [Hdep (dir & Hdir & Hp)].
    apply tool_entry_Some in Hentry as (Hsid & Hpath & _).
    simpl in Hsid, Hpath. subst sid. simpl. by exists dir, item.2. }
  split; [ | exact Hprov]. intros sid. split.
  - intros [tool Htool].
    destruct (Hprov sid tool Htool) as (dir & p & ? & ? & ? & ? & _).
    by exists dir, p.
  - intros (dir & p & Hdir & Hp & Hdep & Hname).
    assert (Hitem : (namespace sid, p) ∈ processing_order W cwl_dirs).
    { apply elem_of_processing_order. split; [done | by exists dir]. }
    apply list_elem_of_lookup in Hitem as [i Hi].
    destruct (Forall2_lookup_l _ _ _ _ _ Hes Hi) as (e & He & Hentry).
    apply tool_entry_Some in Hentry as (Hsid & _). simpl in Hsid.
    apply assign_all_is_Some. apply list_elem_of_fmap. exists e.
    split; [ | by eapply list_elem_of_lookup_2].
    rewrite Hsid. unfold step_id_of. simpl. rewrite <- Hname. by destruct sid.
Qed.

(** *** What a returned catalog says about the files *)

Lemma validate_cwl_any_out p skip out r out' :
  validate_cwl W p skip out = (r, out') →
  ∀ o, validate_cwl W p skip o = (r, o).
Proof.
  unfold validate_cwl, bind, lift, ret.
  destruct (fetch_document W p) as [[[ctx obj] uri] | e];
    [ | by intros [= <- _]].
  destruct (resolve_and_validate_document W ctx obj uri false)
    as [[ctx' uri'] | e]; [ | by intros [= <- _]].
  destruct (make_tool W uri' ctx') as [process | e]; by intros [= <- _].
Qed.

Lemma get_tools_cwl_file_validated skip ns tools p out tools' out' :
  get_tools_cwl_file W true skip ns tools p out = (Ok tools', out') →
  str_contains "biobb_md" p = false →
  ∀ o, validate_cwl W p skip o = (Ok tt, o).
Proof.
  unfold get_tools_cwl_file. intros H Hdep. rewrite Hdep in H.
  apply bind_Ok in H as (tool & out1 & _ & H).
  apply bind_Ok in H as ([] & out2 & Hvalidate & _).
  by eapply validate_cwl_any_out.
Qed.

Lemma for_each_file_validated skip ns paths : ∀ tools out tools' out',
  for_each (get_tools_cwl_file W true skip ns) paths tools out =
    (Ok tools', out') →
  ∀ p, p ∈ paths → str_contains "biobb_md" p = false →
       ∀ o, validate_cwl W p skip o = (Ok tt, o).
Proof.
  induction paths as [ | q paths IH]; intros tools out tools' out'; simpl.
  - by intros _ p ?%elem_of_nil.
  - intros (tools1 & out1 & Hstep & Hrest)%bind_Ok p
      [-> | Hin]%elem_of_cons Hdep.
    + by eapply get_tools_cwl_file_validated.
    + by eapply IH.
Qed.

Lemma for_each_dir_validated skip file cwl_dirs : ∀ tools out tools' out',
  for_each (get_tools_cwl_dir W true skip file) cwl_dirs tools out =
    (Ok tools', out') →
  ∀ item, item ∈ processing_order W cwl_dirs →
          ∀ o, validate_cwl W item.2 skip o = (Ok tt, o).
Proof.
  induction cwl_dirs as [ | [ns dir] cwl_dirs IH];
    intros tools out tools' out'; simpl.
  - by intros _ item ?%elem_of_nil.
  - intros (tools1 & out1 & Hstep & Hrest)%bind_Ok item.
    rewrite processing_order_cons, elem_of_app. intros [Hitem | Hitem].
    + apply elem_of_processing_order in Hitem as [Hdep (dir' & Hdir & Hp)].
      apply elem_of_cons in Hdir as [[= _ <-] | ?%elem_of_nil]; [ | done].
      unfold get_tools_cwl_dir in Hstep.
      apply bind_Ok in Hstep as (? & out2 & _ & Hstep).
      apply bind_Ok in Hstep as (? & out3 & _ & Hstep).
      by eapply for_each_file_validated.
    + by eapply IH.
Qed.

(** X12: a build that returns a catalog has loaded every file that it
    processed as a value with an [update] method, which is a mapping or a
    set, and, when [validate_plugins] is set, has validated every one of
    them without an exception: one file that fails leaves no catalog at
    all. *)
Theorem returned_catalog_means_all_files_passed homedir validate skip out
    tools out' :
  get_tools_cwl W homedir validate skip out = (Ok tools, out') →
  ∃ cwl_dirs,
    read_lines_pairs W (cwl_dirs_file_of W homedir) = Ok cwl_dirs ∧
    ∀ item, item ∈ processing_order W cwl_dirs →
      ((∃ d, load_yaml_file W item.2 = Ok (Loaded (JDict d))) ∨
       (∃ elements, load_yaml_file W item.2 = Ok (LoadedSet elements))) ∧
      (validate = true → ∀ o, validate_cwl W item.2 skip o = (Ok tt, o)).
Proof.
  intros Hrun.
  pose proof (get_tools_cwl_Ok _ _ _ _ _ _ _ Hrun)
    as (cwl_dirs & es & Hread & Hes & _).
  exists cwl_dirs. split; [exact Hread | ]. intros item Hitem. split.
  - apply list_elem_of_lookup in Hitem as [i Hi].
    destruct (Forall2_lookup_l _ _ _ _ _ Hes Hi) as (e & _ & Hentry).
    apply tool_entry_document in Hentry
      as (loaded & Hload & [(d & -> & _) | (elements & -> & _)]);
      [left | right]; eauto.
  - intros ->. unfold get_tools_cwl in Hrun.
    apply bind_Ok in Hrun as (? & out1 & _ & Hrun).
    apply bind_Ok in Hrun as (cwl_dirs' & out2 & [Hread' ->]%lift_Ok & Hrun).
    unfold cwl_dirs_file_of in Hread. rewrite Hread in Hread'.
    injection Hread' as <-. by eapply for_each_dir_validated.
Qed.

(** X13: a file that loads as anything but a mapping or a set (an empty
    file loads as [None]) makes the build raise an AttributeError at
    [tool.update], after the validation if that is on and passes; the
    catalog is not changed and nothing is printed. *)
Theorem non_mapping_document_raises validate skip ns tools p out doc :
  str_contains "biobb_md" p = false →
  load_yaml_file W p = Ok doc →
  (∀ d, doc ≠ Loaded (JDict d)) →
  (∀ elements, doc ≠ LoadedSet elements) →
  (validate = true → validate_cwl W p skip out = (Ok tt, out)) →
  ∃ message,
    get_tools_cwl_file W validate skip ns tools p out =
      (Raise (Exception "AttributeError" message), out).
Proof.
  intros Hdep Hload Hdoc Hset Hvalidate. unfold get_tools_cwl_file.
  rewrite Hdep. unfold bind at 1. unfold lift at 1. rewrite Hload.
  unfold bind at 1.
  assert ((if validate then validate_cwl W p skip else ret tt) out =
          (Ok tt, out)) as ->.
  { destruct validate; [by apply Hvalidate | done]. }
  unfold bind, lift.
  destruct doc as [[ | | | | | | d] | elements | other];
    try (eexists; reflexivity).
  - by destruct (Hdoc d).
  - by destruct (Hset elements).
Qed.

Lemma set_add_prefix k elements : elements `prefix_of` set_add k elements.
Proof.
  unfold set_add. destruct (existsb _ elements); [done | ].
  by apply prefix_app_r.
Qed.

Lemma elem_of_set_add e k elements :
  e ∈ set_add k elements → e ∈ elements ∨ e = JStr k.
Proof.
  unfold set_add. destruct (existsb _ elements); [by left | ].
  rewrite elem_of_app, list_elem_of_singleton. tauto.
Qed.

(** X14: apart from "stdout" and "stderr", the document of an entry has
    every key of the loaded mapping with the loaded value; the loaded keys
    keep their order, and a key is added only where "stdout" or "stderr"
    was missing. Where the file loaded as a set, the document has the
    loaded elements, and the only elements that can be added are the names
    "stdout" and "stderr". *)
Theorem tool_document_keeps_other_keys homedir validate skip out tools out' :
  get_tools_cwl W homedir validate skip out = (Ok tools, out') →
  ∀ sid tool, dict_get sid tools = Some tool →
    ∃ cwl_path_str loaded,
      name sid = path_stem W cwl_path_str ∧
      load_yaml_file W cwl_path_str = Ok loaded ∧
      ((∃ entries d,
          loaded = Loaded (JDict entries) ∧
          definition tool = Loaded (JDict d) ∧
          (∀ k, k ≠ "stdout" → k ≠ "stderr" →
                dict_get k d = dict_get k entries) ∧
          entries.*1 `prefix_of` d.*1 ∧
          (∀ k, k ∈ d.*1 → k ∈ entries.*1 ∨ k = "stdout" ∨ k = "stderr")) ∨
       (∃ elements elements',
          loaded = LoadedSet elements ∧
          definition tool = LoadedSet elements' ∧
          elements `prefix_of` elements' ∧
          (∀ e, e ∈ elements' →
                e ∈ elements ∨ e = JStr "stdout" ∨ e = JStr "stderr"))).
Proof.
  intros (cwl_dirs & es & _ & Hes & ->)%get_tools_cwl_Ok sid tool Hget.
  apply assign_all_Some in Hget
    as [(l1 & l2 & -> & _) | [_ Hnil]]; [ | done].
  apply Forall2_app_inv_r in Hes as (items1 & items2 & _ & Hes & _).
  apply Forall2_cons_inv_r in Hes as (item & items3 & Hitem & _ & _).
  pose proof (tool_entry_Some _ _ _ Hitem) as (Hsid & _).
  apply tool_entry_document in Hitem as (loaded & Hload & Hdef).
  simpl in Hsid, Hdef. subst sid. simpl.
  exists item.2, loaded. split; [done | ]. split; [exact Hload | ].
  destruct Hdef as [(entries & -> & Hdef) | (elements & -> & Hdef)].
  - left. eexists entries, _. split; [done | ]. split; [exact Hdef | ].
    split; [ | split].
    + intros k Hout Herr. by rewrite !dict_get_set_ne.
    + rewrite !dict_set_keys.
      repeat case_decide;
        first [ by (exists []; rewrite app_nil_r)
              | by exists ["stderr"]
              | by exists ["stdout"]
              | by (exists ["stdout"; "stderr"]; rewrite <- app_assoc) ].
    + intros k. rewrite !dict_set_keys.
      repeat case_decide;
        rewrite ?elem_of_app, ?list_elem_of_singleton; tauto.
  - right. eexists elements, _. split; [done | ]. split; [exact Hdef | ].
    split.
    + etrans; apply set_add_prefix.
    + intros e [[He | ->]%elem_of_set_add | ->]%elem_of_set_add; auto.
Qed.

(** *** Which of several shortest paths wins *)

Lemma filter_insert_len_desc (Q : string → bool) x l :
  (∀ a b, Q a = true → Q b = true → String.length a = String.length b) →
  List.filter Q (insert_len_desc x l) = List.filter Q (x :: l).
Proof.
  intros HQ. induction l as [ | y l IH]; [done | ].
  cbn [insert_len_desc].
  destruct (String.length y <=? String.length x)%nat eqn:E; [done | ].
  apply Nat.leb_gt in E. cbn [List.filter]. rewrite IH. cbn [List.filter].
  destruct (Q y) eqn:Ey, (Q x) eqn:Ex; try done.
  pose proof (HQ _ _ Ex Ey). lia.
Qed.

Lemma filter_sorted_len_reverse (Q : string → bool) l :
  (∀ a b, Q a = true → Q b = true → String.length a = String.length b) →
  List.filter Q (sorted_len_reverse l) = List.filter Q l.
Proof.
  intros HQ. induction l as [ | x l IH]; [done | ].
  cbn [sorted_len_reverse foldr]. fold (sorted_len_reverse l).
  rewrite filter_insert_len_desc by done. cbn [List.filter]. by rewrite IH.
Qed.

Lemma filter_filter_implies {A} (Q keep : A → bool) l :
  (∀ x, Q x = true → keep x = true) →
  List.filter Q (List.filter keep l) = List.filter Q l.
Proof.
  intros HQ. induction l as [ | x l IH]; [done | ]. cbn [List.filter].
  destruct (keep x) eqn:Ek; cbn [List.filter]; rewrite IH; [done | ].
  destruct (Q x) eqn:Eq; [ | done]. apply HQ in Eq. congruence.
Qed.

Lemma filter_none {A} (Q : A → bool) l :
  (∀ x, x ∈ l → Q x = false) → List.filter Q l = [].
Proof.
  induction l as [ | x l IH]; [done | ]. intros H. cbn [List.filter].
  rewrite (H x) by apply list_elem_of_here.
  apply IH. intros y Hy. apply H. by apply list_elem_of_further.
Qed.

(** X15: among the files of one registry line that are not excluded and
    share a stem, the entry of the stem is the absolute path of the shortest
    one and, when several are shortest, of the one that the glob lists
    last: the sort is stable, so the order of the glob decides only between
    paths of equal length. *)
Theorem yml_entry_is_last_of_shortest dir l1 p l2 :
  glob_recursive W (path_join W dir "**/*.yml") = l1 ++ p :: l2 →
  str_contains "_inputs" p = false →
  (∀ q, q ∈ l1 → str_contains "_inputs" q = false →
        path_stem W q = path_stem W p →
        (String.length p ≤ String.length q)%nat) →
  (∀ q, q ∈ l2 → str_contains "_inputs" q = false →
        path_stem W q = path_stem W p →
        (String.length p < String.length q)%nat) →
  dict_get (path_stem W p) (yml_paths_dir W dir) = Some (abspath W p).
Proof.
  intros Hglob Hkeep Hl1 Hl2.
  set (keep := λ q, negb (str_contains "_inputs" q)).
  set (Q := λ q, keep q && String.eqb (path_stem W q) (path_stem W p) &&
                 (String.length q =? String.length p)%nat).
  assert (HQ : ∀ q, Q q = true ↔
                    str_contains "_inputs" q = false ∧
                    path_stem W q = path_stem W p ∧
                    String.length q = String.length p).
  { intros q. unfold Q, keep.
    rewrite !andb_true_iff, negb_true_iff, String.eqb_eq, Nat.eqb_eq. tauto. }
  assert (Hp : p ∈ glob_recursive W (path_join W dir "**/*.yml")).
  { rewrite Hglob. apply elem_of_app. right. apply list_elem_of_here. }
  destruct (yml_paths_dir_is_Some W dir p Hp Hkeep) as [a Ha].
  rewrite Ha. f_equal.
  unfold yml_paths_dir in Ha. rewrite yml_paths_of_assign in Ha.
  fold keep in Ha.
  apply assign_all_Some in Ha as [(k1 & k2 & Hsplit & Hk2) | [_ Hnil]];
    [ | done].
  apply map_eq_app in Hsplit as (L1 & L2' & Hfilter & <- & Hrest).
  destruct L2' as [ | p' L2]; [done | ]. simpl in Hrest.
  injection Hrest as Hs Ha Hrest. subst k2 a. f_equal.
  assert (HL2 : ∀ q, q ∈ L2 → path_stem W q ≠ path_stem W p).
  { intros q Hq Hqs. destruct Hk2. rewrite <- Hqs.
    apply list_elem_of_fmap. exists (path_stem W q, abspath W q).
    split; [done | ]. apply list_elem_of_In, in_map_iff.
    exists q. split; [done | by apply list_elem_of_In]. }
  assert (Hin : ∀ q, q ∈ L1 ++ p' :: L2 ↔
                     q ∈ l1 ++ p :: l2 ∧ str_contains "_inputs" q = false).
  { intros q. rewrite <- Hfilter, list_elem_of_In, filter_In.
    rewrite <- list_elem_of_In, sorted_len_reverse_perm, Hglob.
    unfold keep. by rewrite negb_true_iff. }
  pose proof (StronglySorted_filter _ keep _
                (sorted_len_reverse_sorted
                   (glob_recursive W (path_join W dir "**/*.yml"))))
    as Hsorted.
  rewrite Hfilter in Hsorted.
  assert (Hp' : p' ∈ l1 ++ p :: l2 ∧ str_contains "_inputs" p' = false).
  { apply Hin, elem_of_app. right. apply list_elem_of_here. }
  destruct Hp' as [Hp'in Hp'keep].
  assert (Hlen : String.length p' = String.length p).
  { apply Nat.le_antisymm.
    - assert (Hpin : p ∈ L1 ++ p' :: L2).
      { apply Hin. split; [ | done]. apply elem_of_app. right.
        apply list_elem_of_here. }
      apply elem_of_app in Hpin as [Hpin | Hpin].
      + eapply (StronglySorted_app_1_elem_of _ _ _ p p' Hsorted); [done | ].
        apply list_elem_of_here.
      + apply elem_of_cons in Hpin as [-> | Hpin]; [done | ].
        by destruct (HL2 p Hpin).
    - apply elem_of_app in Hp'in as [Hq | Hq].
      + by apply Hl1.
      + apply elem_of_cons in Hq as [-> | Hq]; [done | ].
        apply Nat.lt_le_incl. by apply Hl2. }
  assert (Hgroup : List.filter Q (L1 ++ p' :: L2) =
                   List.filter Q (l1 ++ p :: l2)).
  { rewrite <- Hfilter, <- Hglob.
    rewrite filter_filter_implies.
    - apply filter_sorted_len_reverse. intros x y Hx%HQ Hy%HQ.
      destruct Hx as (_ & _ & ->), Hy as (_ & _ & ->). done.
    - intros x Hx%HQ. unfold keep. destruct Hx as (-> & _). done. }
  rewrite !List.filter_app in Hgroup. cbn [List.filter] in Hgroup.
  rewrite (proj2 (HQ p')), (proj2 (HQ p)) in Hgroup by done.
  rewrite (filter_none Q L2), (filter_none Q l2) in Hgroup.
  - apply app_inj_tail in Hgroup as [_ Heq]. done.
  - intros q Hq. destruct (Q q) eqn:E; [ | done].
    apply HQ in E as (Hqk & Hqs & Hql).
    pose proof (Hl2 q Hq Hqk Hqs). lia.
  - intros q Hq. destruct (Q q) eqn:E; [ | done].
    apply HQ in E as (_ & Hqs & _). by destruct (HL2 q Hq).
Qed.

End WithWorld.

Lemma yml_catalog_namespaces_witness :
  ∃ all out',
    get_yml_paths Fixture.split_namespace "/home/u" [] = (Ok all, out') ∧
    is_Some (dict_get "ns" all) ∧ dict_wf all.
Proof.
  destruct (get_yml_paths Fixture.split_namespace "/home/u" [])
    as [[all | e] out'] eqn:Hrun; [ | by vm_compute in Hrun].
  destruct (yml_catalog_namespaces _ _ _ _ _ Hrun)
    as (yml_dirs & Hread & Hkeys & Hwf & _).
  injection Hread as <-.
  exists all, out'. split; [reflexivity | ]. split; [ | exact Hwf].
  apply Hkeys. apply list_elem_of_here.
Defined.

Lemma get_tools_cwl_prints_only_warnings_witness :
  ∃ tools out',
    get_tools_cwl Fixture.tools_world "/home/u" true false [] =
      (Ok tools, out') ∧
    out' = Fixture.tools_stdout.
Proof.
  destruct (get_tools_cwl Fixture.tools_world "/home/u" true false [])
    as [[tools | e] out'] eqn:Hrun; [ | by vm_compute in Hrun].
  destruct (get_tools_cwl_prints_only_warnings _ _ _ _ _ _ _ Hrun)
    as (cwl_dirs & Hread & ->).
  injection Hread as <-. exists tools. eexists. split; reflexivity.
Defined.

Lemma get_yml_paths_prints_only_warnings_witness :
  ∃ all out',
    get_yml_paths Fixture.split_namespace "/home/u" [] = (Ok all, out') ∧
    out' = [warning_no_files Fixture.split_namespace "yml" "empty"
              (yml_dirs_file_of Fixture.split_namespace "/home/u");
            warning_wrong_directory].
Proof.
  destruct (get_yml_paths Fixture.split_namespace "/home/u" [])
    as [[all | e] out'] eqn:Hrun; [ | by vm_compute in Hrun].
  destruct (get_yml_paths_prints_only_warnings _ _ _ _ _ Hrun)
    as (yml_dirs & Hread & ->).
  injection Hread as <-. exists all. eexists. split; reflexivity.
Defined.

Lemma tool_catalog_holds_exactly_processed_files_witness :
  ∃ tools out',
    get_tools_cwl Fixture.tools_world "/home/u" true false [] =
      (Ok tools, out') ∧
    is_Some (dict_get (mkStepId "align" "ns") tools) ∧
    dict_get (mkStepId "mdrun" "ns") tools = None.
Proof.
  destruct (get_tools_cwl Fixture.tools_world "/home/u" true false [])
    as [[tools | e] out'] eqn:Hrun; [ | by vm_compute in Hrun].
  destruct (tool_catalog_holds_exactly_processed_files _ _ _ _ _ _ _ Hrun)
    as (cwl_dirs & Hread & Hkeys & _).
  injection Hread as <-.
  exists tools, out'. split; [reflexivity | ]. split.
  - apply Hkeys. exists "t", "t/align.cwl".
    split; [apply list_elem_of_here | ].
    split; [vm_compute; apply list_elem_of_here | ]. by split.
  - destruct (dict_get (mkStepId "mdrun" "ns") tools) as [tool | ] eqn:E;
      [ | done].
    destruct (proj1 (Hkeys (mkStepId "mdrun" "ns")))
      as (dir & p & Hdir & Hp & Hdep & Hname); [by eexists | ].
    simpl in Hdir, Hname.
    assert (dir = "t" ∨ dir = "empty") as [-> | ->].
    { apply elem_of_cons in Hdir as [[= ->] | Hdir]; [by left | ].
      apply elem_of_cons in Hdir as [[= ->] | Hdir]; [by right | ].
      apply elem_of_cons in Hdir as [[=] | ?%elem_of_nil]; done. }
    + vm_compute in Hp.
      apply elem_of_cons in Hp as [-> | Hp]; [by vm_compute in Hname | ].
      apply elem_of_cons in Hp as [-> | Hp]; [by vm_compute in Hdep | ].
      by apply elem_of_nil in Hp.
    + vm_compute in Hp. by apply elem_of_nil in Hp.
Defined.

Lemma returned_catalog_means_all_files_passed_witness :
  ∃ tools out',
    get_tools_cwl Fixture.tools_world "/home/u" true false [] =
      (Ok tools, out') ∧
    ((∃ d, load_yaml_file Fixture.tools_world "u/sort.cwl" =
             Ok (Loaded (JDict d))) ∨
     (∃ elements, load_yaml_file Fixture.tools_world "u/sort.cwl" =
                    Ok (LoadedSet elements))) ∧
    validate_cwl Fixture.tools_world "u/sort.cwl" false [] = (Ok tt, []).
Proof.
  destruct (get_tools_cwl Fixture.tools_world "/home/u" true false [])
    as [[tools | e] out'] eqn:Hrun; [ | by vm_compute in Hrun].
  destruct (returned_catalog_means_all_files_passed _ _ _ _ _ _ _ Hrun)
    as (cwl_dirs & Hread & Hall).
  injection Hread as <-.
  destruct (Hall ("other", "u/sort.cwl")) as [Hload Hvalid].
  { vm_compute. apply list_elem_of_further, list_elem_of_here. }
  exists tools, out'. split; [reflexivity | ]. split; [exact Hload | ].
  by apply Hvalid.
Defined.

Lemma non_mapping_document_raises_witness :
  ∃ message,
    get_tools_cwl_file
      (Fixture.world [("t/empty.cwl", JNull)] [("ns", "t")])
      true false "ns" [] "t/empty.cwl" [] =
    (Raise (Exception "AttributeError" message), []).
Proof.
  apply (non_mapping_document_raises
           (Fixture.world [("t/empty.cwl", JNull)] [("ns", "t")])
           true false "ns" [] "t/empty.cwl" [] (Loaded JNull));
    [reflexivity | reflexivity | done | done | reflexivity].
Defined.

Lemma tool_document_keeps_other_keys_witness :
  ∃ d cwl_path_str entries,
    definition Fixture.align_tool = Loaded (JDict d) ∧
    load_yaml_file Fixture.tools_world cwl_path_str =
      Ok (Loaded (JDict entries)) ∧
    dict_get "class" d = dict_get "class" entries.
Proof.
  destruct (tool_document_keeps_other_keys Fixture.tools_world "/home/u"
              true false [] Fixture.tools_catalog Fixture.tools_stdout
              ltac:(vm_compute; reflexivity)
              (mkStepId "align" "ns") Fixture.align_tool eq_refl)
    as (p & loaded & _ & Hload &
        [(entries & d & -> & Hdef & Hkeys & _) | (? & ? & _ & [=] & _)]).
  exists d, p, entries. split; [exact Hdef | ]. split; [exact Hload | ].
  by apply Hkeys.
Defined.

Lemma yml_entry_is_last_of_shortest_witness :
  dict_get "foo"
    (yml_paths_dir
       (Fixture.world [("d/x/foo.yml", JDict []); ("d/y/foo.yml", JDict []);
                       ("d/deeper/foo.yml", JDict [])] [("ns", "d")]) "d") =
  Some "/work/d/y/foo.yml".
Proof.
  apply (yml_entry_is_last_of_shortest
           (Fixture.world [("d/x/foo.yml", JDict []);
                           ("d/y/foo.yml", JDict []);
                           ("d/deeper/foo.yml", JDict [])] [("ns", "d")])
           "d" ["d/x/foo.yml"] "d/y/foo.yml" ["d/deeper/foo.yml"]).
  - reflexivity.
  - reflexivity.
  - intros q ->%list_elem_of_singleton _ _. vm_compute. lia.
  - intros q ->%list_elem_of_singleton _ _. vm_compute. lia.
Defined.

End PluginsMore.
